(** * nextorch.utils: scaling and standardisation transforms

    A shallow embedding of [nextorch/utils.py].  Floating-point numbers are
    read as real numbers ([R]); numpy arrays are lists (1-D) and lists of
    rows together with their column count (2-D), and a torch tensor is such
    a matrix under a tag of its own; Python exceptions are an explicit
    error result.  The arrays hold floating-point numbers: an array of
    integers, on which [10 ** y] raises for a negative [y], is not an input
    of the model, and neither is an [X_range] that is itself a numpy array.
    Two situations of the floating-point code have no counterpart over
    [R]: a division by zero (numpy yields [inf] or [nan]) and the logarithm
    of a non-positive number.  A statement whose truth depends on the value
    of such an expression carries a hypothesis that excludes it.  Rounding
    to a number of decimals is not a function of the real number, and is
    left as a parameter ([Around]). *)

From Stdlib Require Import Reals List Lia Lra ZArith Bool Arith.
Import ListNotations.

Local Open Scope R_scope.

(** ** Python exceptions as results *)

Inductive PyError : Type :=
| IndexError
| ValueError
| TypeError
| RuntimeError.

Inductive result (A : Type) : Type :=
| Ok (a : A)
| Raise (e : PyError).

Arguments Ok {A} a.
Arguments Raise {A} e.

Definition bind {A B : Type} (m : result A) (k : A -> result B) : result B :=
  match m with
  | Ok a => k a
  | Raise e => Raise e
  end.

Notation "x <- m ;; k" := (bind m (fun x => k))
  (at level 100, m at next level, right associativity).

(** [l[i]] for a non-negative index. *)
Definition index {A : Type} (l : list A) (i : nat) : result A :=
  match nth_error l i with
  | Some a => Ok a
  | None => Raise IndexError
  end.

(** [for i, a in enumerate(l): s = body i a s], counting from [i]. *)
Fixpoint for_enumerate {A St : Type} (l : list A) (i : nat) (s : St)
    (body : nat -> A -> St -> result St) : result St :=
  match l with
  | [] => Ok s
  | a :: l' => s' <- body i a s ;; for_enumerate l' (S i) s' body
  end.

(** ** numpy arrays *)

(** A 2-D array of shape [(length rows_of, n_cols)]. *)
Record Matrix : Type := mkMatrix { n_cols : nat; rows_of : list (list R) }.

Definition n_rows (M : Matrix) : nat := length (rows_of M).

Definition wf_matrix (M : Matrix) : Prop :=
  Forall (fun r => length r = n_cols M) (rows_of M).

(** What the functions accept as [X]: a 1-D or a 2-D array. *)
Inductive ndarray : Type :=
| Arr1 (v : list R)
| Arr2 (m : Matrix).

(** [X.shape] *)
Definition shape (X : ndarray) : list nat :=
  match X with
  | Arr1 v => [length v]
  | Arr2 m => [n_rows m; n_cols m]
  end.

(** [if len(X.shape) < 2: X = np.array([X])]: a 1-D array becomes the only
    row of a 2-D array, a 2-D array stays as it is. *)
Definition promote_2d (X : ndarray) : Matrix :=
  match X with
  | Arr1 v => mkMatrix (length v) [v]
  | Arr2 m => m
  end.

(** [np.zeros((r, c))] *)
Definition np_zeros (r c : nat) : Matrix := mkMatrix c (repeat (repeat 0 c) r).

(** Column [j] of a list of rows. *)
Definition column (j : nat) (rows : list (list R)) : list R :=
  map (fun r => nth j r 0) rows.

(** [np.transpose(M)] *)
Definition np_transpose (M : Matrix) : Matrix :=
  mkMatrix (n_rows M) (map (fun j => column j (rows_of M)) (seq 0 (n_cols M))).

(** [np.array(l)] for a non-empty nested list: the rows must have one
    length (numpy refuses a ragged list). *)
Definition np_array2 (l : list (list R)) : result Matrix :=
  let c := length (hd [] l) in
  if forallb (fun r => (length r =? c)%nat) l then Ok (mkMatrix c l)
  else Raise ValueError.

Fixpoint list_set (l : list R) (i : nat) (x : R) : list R :=
  match l, i with
  | [], _ => []
  | _ :: t, O => x :: t
  | h :: t, S i' => h :: list_set t i' x
  end.

Fixpoint zip_set (rows : list (list R)) (i : nat) (v : list R) : list (list R) :=
  match rows, v with
  | r :: rows', x :: v' => list_set r i x :: zip_set rows' i v'
  | _, _ => []
  end.

(** [M[:, i] = v]: [v] has one entry per row, or a single entry that numpy
    broadcasts to every row. *)
Definition set_column (M : Matrix) (i : nat) (v : list R) : result Matrix :=
  if (n_cols M <=? i)%nat then Raise IndexError
  else if (length v =? n_rows M)%nat then
    Ok (mkMatrix (n_cols M) (zip_set (rows_of M) i v))
  else if (length v =? 1)%nat then
    Ok (mkMatrix (n_cols M) (map (fun r => list_set r i (hd 0 v)) (rows_of M)))
  else Raise ValueError.

(** [np.log10] and [10 ** y] on floats, read over the reals. *)
Definition log10 (x : R) : R := ln x / ln 10.
Definition pow10 (y : R) : R := Rpower 10 y.

(** [np.rint]: the nearest integer, a tie going to the even one. *)
Definition rint (x : R) : R :=
  let f := Int_part x in
  let r := x - IZR f in
  if Rlt_dec r (1 / 2) then IZR f
  else if Rlt_dec (1 / 2) r then IZR (f + 1)
  else if Z.even f then IZR f else IZR (f + 1).

(** [np.around(x, decimals)] on one entry.  numpy multiplies by a power of
    ten, rounds to the nearest integer and divides, each in binary64, and
    what it returns next to a tie depends on the rounding of that product
    and of that quotient, which the reals do not show.  The function is
    therefore a parameter of everything that rounds, and nothing is assumed
    of it. *)
Class Around : Type := around1 : Z -> R -> R.

(** One such function, the rounding whose product and quotient are exact.
    It is not numpy's (the two differ next to a tie); it is there so that
    the examples, none of which rounds, can name a rounding. *)
Definition around_exact : Around :=
  fun decimals x =>
    if (0 <=? decimals)%Z
    then rint (x * powerRZ 10 decimals) / powerRZ 10 decimals
    else rint (x / powerRZ 10 (- decimals)) * powerRZ 10 (- decimals).

(** [np.around(M, decimals)]: entry by entry. *)
Definition np_around {rnd : Around} (M : Matrix) (decimals : Z) : Matrix :=
  mkMatrix (n_cols M) (map (map (around1 decimals)) (rows_of M)).

(** ** The scaling functions *)

Definition unitscale_xv (xv : list R) (xi_range : list R) : result (list R) :=
  lb <- index xi_range 0 ;;
  rb <- index xi_range 1 ;;
  Ok (map (fun x => (x - lb) / (rb - lb)) xv).

Definition inverse_unitscale_xv (xv : list R) (xi_range : list R) : result (list R) :=
  lb <- index xi_range 0 ;;
  rb <- index xi_range 1 ;;
  Ok (map (fun x => lb + (rb - lb) * x) xv).

(** [if X_range == []: X_range = [[0,1]] * dim
     else: X_range = np.transpose(X_range)] *)
Definition ranges_by_column (X_range : list (list R)) (dim : nat)
    : result (list (list R)) :=
  match X_range with
  | [] => Ok (repeat [0; 1] dim)
  | _ => A <- np_array2 X_range ;; Ok (rows_of (np_transpose A))
  end.

(** [if log_flags == []: log_flags = [False] * dim] *)
Definition flags_by_column (log_flags : list bool) (dim : nat) : list bool :=
  match log_flags with
  | [] => repeat false dim
  | _ => log_flags
  end.

(** [if not decimals == None: M = np.around(M, decimals = decimals)] *)
Definition round_if {rnd : Around} (decimals : option Z) (M : Matrix)
    : Matrix :=
  match decimals with
  | None => M
  | Some d => np_around M d
  end.

Definition unitscale_X {rnd : Around} (X : ndarray)
    (X_range : list (list R))
    (log_flags : list bool) (decimals : option Z) : result Matrix :=
  let X := promote_2d X in
  let dim := n_cols X in
  X_range <- ranges_by_column X_range dim ;;
  let log_flags := flags_by_column log_flags dim in
  let Xunit := np_zeros (n_rows X) (n_cols X) in
  Xunit <- for_enumerate (rows_of (np_transpose X)) 0%nat Xunit
    (fun i xi Xunit =>
       flag <- index log_flags i ;;
       if flag : bool then
         r <- index X_range i ;;
         u <- unitscale_xv xi r ;;
         set_column Xunit i (map log10 u)
       else
         r <- index X_range i ;;
         u <- unitscale_xv xi r ;;
         set_column Xunit i u) ;;
  Ok (round_if decimals Xunit).

Definition inverse_unitscale_X {rnd : Around} (X : ndarray)
    (X_range : list (list R))
    (log_flags : list bool) (decimals : option Z) : result Matrix :=
  let X := promote_2d X in
  let dim := n_cols X in
  X_range <- ranges_by_column X_range dim ;;
  let log_flags := flags_by_column log_flags dim in
  let Xreal := np_zeros (n_rows X) (n_cols X) in
  Xreal <- for_enumerate (rows_of (np_transpose X)) 0%nat Xreal
    (fun i xi Xreal =>
       flag <- index log_flags i ;;
       if flag : bool then
         r <- index X_range i ;;
         u <- inverse_unitscale_xv xi r ;;
         set_column Xreal i (map pow10 u)
       else
         r <- index X_range i ;;
         u <- inverse_unitscale_xv xi r ;;
         set_column Xreal i u) ;;
  Ok (round_if decimals Xreal).

(** ** Standardisation *)

Fixpoint zip_with (op : R -> R -> R) (a b : list R) : list R :=
  match a, b with
  | x :: a', y :: b' => op x y :: zip_with op a' b'
  | _, _ => []
  end.

(** [M op v] for a 2-D array [M] and a 1-D array [v], with numpy's
    broadcasting: [v] is laid along every row when the lengths agree, a
    one-entry [v] is stretched, a one-column [M] is stretched to [v], and
    every other pair of shapes is refused. *)
Definition broadcast_rows (op : R -> R -> R) (M : Matrix) (v : list R)
    : result Matrix :=
  if (length v =? n_cols M)%nat then
    Ok (mkMatrix (n_cols M) (map (fun r => zip_with op r v) (rows_of M)))
  else if (length v =? 1)%nat then
    Ok (mkMatrix (n_cols M) (map (map (fun x => op x (hd 0 v))) (rows_of M)))
  else if (n_cols M =? 1)%nat then
    Ok (mkMatrix (length v)
          (map (fun r => map (fun y => op (hd 0 r) y) v) (rows_of M)))
  else Raise ValueError.

(** The same on a torch tensor: torch broadcasts by numpy's rules and
    raises a [RuntimeError] where numpy raises a [ValueError]. *)
Definition torch_broadcast_rows (op : R -> R -> R) (M : Matrix) (v : list R)
    : result Matrix :=
  match broadcast_rows op M v with
  | Ok P => Ok P
  | Raise _ => Raise RuntimeError
  end.

Definition sum (l : list R) : R := fold_right Rplus 0 l.

Definition mean (l : list R) : R := sum l / INR (length l).

(** numpy's [std] with its default [ddof = 0]: the population value. *)
Definition std (l : list R) : R :=
  sqrt (mean (map (fun x => Rsqr (Rabs (x - mean l))) l)).

(** torch's [std] with its default correction: the sample value, the sum of
    squares over [n - 1].  (For a single row torch returns [nan]; that is
    one of the divisions by zero without counterpart here.) *)
Definition torch_std (l : list R) : R :=
  sqrt (sum (map (fun x => Rsqr (x - mean l)) l) / INR (length l - 1)).

(** [X.mean(axis = 0)] and [X.std(axis = 0)] of an array, and
    [X.std(axis = 0)] of a tensor; the mean of a tensor is that of an
    array. *)
Definition np_mean0 (X : Matrix) : list R :=
  map (fun j => mean (column j (rows_of X))) (seq 0 (n_cols X)).

Definition np_std0 (X : Matrix) : list R :=
  map (fun j => std (column j (rows_of X))) (seq 0 (n_cols X)).

Definition torch_std0 (X : Matrix) : list R :=
  map (fun j => torch_std (column j (rows_of X))) (seq 0 (n_cols X)).

(** [MatrixLike2d = Union[Matrix, Tensor]] *)
Inductive MatrixLike2d : Type :=
| NdArray (m : Matrix)
| Tensor (m : Matrix).

Definition matrix_of (X : MatrixLike2d) : Matrix :=
  match X with
  | NdArray m => m
  | Tensor m => m
  end.

(** [X.mean(axis = 0)] and [X.std(axis = 0)], by the kind of [X]. *)
Definition mean0 (X : MatrixLike2d) : list R := np_mean0 (matrix_of X).

Definition std0 (X : MatrixLike2d) : list R :=
  match X with
  | NdArray m => np_std0 m
  | Tensor m => torch_std0 m
  end.

(** [X op v] for a 1-D [v]; the result is of the kind of [X]. *)
Definition broadcast (op : R -> R -> R) (X : MatrixLike2d) (v : list R)
    : result MatrixLike2d :=
  match X with
  | NdArray m => P <- broadcast_rows op m v ;; Ok (NdArray P)
  | Tensor m => P <- torch_broadcast_rows op m v ;; Ok (Tensor P)
  end.

(** [X_std = None] reaches the division when [X_mean] is given; dividing
    an array or a tensor by [None] is a [TypeError]. *)
Definition standardize_X (X : MatrixLike2d) (X_mean X_std : option (list R))
    : result MatrixLike2d :=
  let '(X_mean, X_std) :=
    match X_mean with
    | None => (mean0 X, Some (std0 X))
    | Some m => (m, X_std)
    end in
  D <- broadcast Rminus X X_mean ;;
  match X_std with
  | None => Raise TypeError
  | Some s => broadcast Rdiv D s
  end.

Definition inverse_standardize_X (X : MatrixLike2d) (X_mean X_std : list R)
    : result MatrixLike2d :=
  match X with
  | Tensor m =>
      P <- torch_broadcast_rows Rmult m X_std ;;
      X_real <- torch_broadcast_rows Rplus P X_mean ;;
      Ok (Tensor X_real)
  | NdArray m =>
      P <- broadcast_rows Rmult m X_std ;;
      X_real <- broadcast_rows Rplus P X_mean ;;
      Ok (NdArray X_real)
  end.

(** ** The 2-D mesh *)

(** [for a in l: s = body a s] *)
Fixpoint for_each {A St : Type} (l : list A) (s : St)
    (body : A -> St -> result St) : result St :=
  match l with
  | [] => Ok s
  | a :: l' => s' <- body a s ;; for_each l' s' body
  end.

(** [range(n)] *)
Definition range (n : Z) : list nat := seq 0 (Z.to_nat n).

(** [np.linspace(start, stop, num)] with its defaults (the end point is
    included): [num] samples [start + k * step], the last one set to [stop]. *)
Definition np_linspace (start stop : R) (num : Z) : result (list R) :=
  if (num <? 0)%Z then Raise ValueError
  else
    let div := (num - 1)%Z in
    let delta := stop - start in
    let y := map INR (seq 0 (Z.to_nat num)) in
    let y :=
      if (0 <? div)%Z then
        let step := delta / IZR div in
        if Req_dec_T step 0 then map (fun k => k / IZR div * delta) y
        else map (fun k => k * step) y
      else map (fun k => k * delta) y in
    let y := map (fun k => k + start) y in
    Ok (if (1 <? num)%Z then list_set y (Z.to_nat num - 1) stop else y).

(** [np.meshgrid(x1, x2, indexing='xy')]: both grids have one row per entry
    of [x2] and one column per entry of [x1]; [X1[i,j] = x1[j]] and
    [X2[i,j] = x2[i]]. *)
Definition np_meshgrid_xy (x1 x2 : list R) : Matrix * Matrix :=
  (mkMatrix (length x1) (map (fun _ => x1) x2),
   mkMatrix (length x1) (map (fun b => repeat b (length x1)) x2)).

(** [M[i, j]] *)
Definition index2 (M : Matrix) (i j : nat) : result R :=
  r <- index (rows_of M) i ;; index r j.

(** [np.array(l)] for a list of pairs; the empty list gives a 1-D array
    without entries. *)
Definition np_array_pairs (l : list (list R)) : ndarray :=
  match l with
  | [] => Arr1 []
  | _ => Arr2 (mkMatrix 2 l)
  end.

Definition create_2D_mesh (mesh_size : Z) : result (ndarray * Matrix * Matrix) :=
  let nx1 := mesh_size in
  let nx2 := mesh_size in
  x1 <- np_linspace 0 1 nx1 ;;
  x2 <- np_linspace 0 1 nx2 ;;
  let '(X1, X2) := np_meshgrid_xy x1 x2 in
  X_test <- for_each (range nx1) []
    (fun i X_test =>
       for_each (range nx2) X_test
         (fun j X_test =>
            a <- index2 X1 i j ;;
            b <- index2 X2 i j ;;
            Ok (X_test ++ [[a; b]]))) ;;
  Ok (np_array_pairs X_test, X1, X2).

(** ** Reference definitions the properties are stated with *)

(** Entry [(k, i)] of a matrix. *)
Definition entry (M : Matrix) (k i : nat) : R := nth i (nth k (rows_of M) []) 0.

(** Standardisation as the specification words it: each of the mean and the
    standard deviation is computed from the data exactly when it is not
    supplied, and both are the population values. *)
Definition standardize_X_as_specified (X : Matrix)
    (X_mean X_std : option (list R)) : result Matrix :=
  let m := match X_mean with None => np_mean0 X | Some m => m end in
  let s := match X_std with None => np_std0 X | Some s => s end in
  D <- broadcast_rows Rminus X m ;;
  broadcast_rows Rdiv D s.

(** The matrix [m] as an object of the kind of [X]. *)
Definition like (X : MatrixLike2d) (m : Matrix) : MatrixLike2d :=
  match X with
  | NdArray _ => NdArray m
  | Tensor _ => Tensor m
  end.

(** The standard deviation that [standardize_X] computes is a number: the
    sample standard deviation of a tensor with a single row is not. *)
Definition std_defined (X : MatrixLike2d) : Prop :=
  match X with
  | NdArray _ => True
  | Tensor m => n_rows m <> 1%nat
  end.

(** The [k]-th of [n] evenly spaced values from 0 to 1 (the single value 0
    when [n] is 1). *)
Definition grid_point (n k : nat) : R :=
  if (n <=? 1)%nat then 0 else INR k / INR (n - 1).

(** Arguments the matrix transforms run through without an index error on a
    matrix of [dim] columns: [X_range] omitted, or made of rows of one
    length, at least [dim], of which there are at least two; [log_flags]
    omitted, or with at least [dim] entries. *)
Definition ranges_fit (X_range : list (list R)) (dim : nat) : Prop :=
  X_range = [] \/
  exists lows highs rest,
    X_range = lows :: highs :: rest /\
    Forall (fun r => length r = length lows) (highs :: rest) /\
    (dim <= length lows)%nat.

Definition flags_fit (log_flags : list bool) (dim : nat) : Prop :=
  log_flags = [] \/ (dim <= length log_flags)%nat.

(** ** The transforms over a store of objects

    The functions once more, now with the Python objects they are handed
    kept in a store and named by references, so that what a call allocates,
    reads and overwrites is explicit.  Arrays own their data or are views of
    another array; a nested list holds references to its inner lists. *)

Module Store.

Definition ref : Type := nat.

Inductive pyobj : Type :=
| ONdarray (a : ndarray)       (* an array that owns its data *)
| OTensor (m : Matrix)         (* a 2-D torch tensor *)
| OTensor1 (v : list R)        (* a 1-D torch tensor *)
| OTransposed (base : ref)     (* [np.transpose] of a 2-D array: a view *)
| OView (base : ref) (j : nat) (* a row of such a view: column [j] of [base] *)
| OFloats (l : list R)         (* a list of numbers *)
| ORefs (l : list ref)         (* a list of objects *)
| OBools (l : list bool).      (* a list of flags *)

Definition heap : Type := list pyobj.

(** A computation reads and changes the store and returns or raises. *)
Definition M (A : Type) : Type := heap -> result A * heap.

Definition ret {A : Type} (a : A) : M A := fun h => (Ok a, h).

Definition lift {A : Type} (x : result A) : M A := fun h => (x, h).

Definition bindM {A B : Type} (m : M A) (k : A -> M B) : M B :=
  fun h =>
    match m h with
    | (Ok a, h') => k a h'
    | (Raise e, h') => (Raise e, h')
    end.

Notation "x <~ m ;; k" := (bindM m (fun x => k))
  (at level 100, m at next level, right associativity).

(** A new object gets the next free reference. *)
Definition alloc (o : pyobj) : M ref := fun h => (Ok (length h), h ++ [o]).

Definition load (r : ref) : M pyobj :=
  fun h =>
    match nth_error h r with
    | Some o => (Ok o, h)
    | None => (Raise TypeError, h)
    end.

Fixpoint heap_set (h : heap) (r : ref) (o : pyobj) : heap :=
  match h, r with
  | [], _ => []
  | _ :: t, O => o :: t
  | x :: t, S r' => x :: heap_set t r' o
  end.

(** Overwrite the object at [r]. *)
Definition write (r : ref) (o : pyobj) : M unit :=
  fun h =>
    if (r <? length h)%nat then (Ok tt, heap_set h r o)
    else (Raise TypeError, h).

(** The 2-D array at [r]. *)
Definition read_matrix (r : ref) : M Matrix :=
  o <~ load r ;;
  match o with
  | ONdarray (Arr2 m) => ret m
  | _ => lift (Raise TypeError)
  end.

(** The numbers of the array-like object at [r]; a view is read through
    to the array it is a view of. *)
Definition read_vector (r : ref) : M (list R) :=
  o <~ load r ;;
  match o with
  | ONdarray (Arr1 v) => ret v
  | OTensor1 v => ret v
  | OFloats l => ret l
  | OView base j => m <~ read_matrix base ;; ret (column j (rows_of m))
  | _ => lift (Raise TypeError)
  end.

Definition read_bools (r : ref) : M (list bool) :=
  o <~ load r ;;
  match o with
  | OBools l => ret l
  | _ => lift (Raise TypeError)
  end.

(** The rows of a nested list of numbers. *)
Fixpoint read_rows (l : list ref) : M (list (list R)) :=
  match l with
  | [] => ret []
  | r :: l' =>
      o <~ load r ;;
      match o with
      | OFloats row => rows <~ read_rows l' ;; ret (row :: rows)
      | _ => lift (Raise TypeError)
      end
  end.

(** [copy.deepcopy] of an array: a new array that owns a copy of the data. *)
Definition deepcopy (r : ref) : M ref :=
  o <~ load r ;;
  match o with
  | OView _ _ => v <~ read_vector r ;; alloc (ONdarray (Arr1 v))
  | ONdarray a => alloc (ONdarray a)
  | OTensor m => alloc (OTensor m)
  | OTensor1 v => alloc (OTensor1 v)
  | OFloats l => alloc (OFloats l)
  | OBools l => alloc (OBools l)
  | _ => lift (Raise TypeError)
  end.

(** [for a in l: body a] *)
Fixpoint for_each_st {A : Type} (l : list A) (body : A -> M unit) : M unit :=
  match l with
  | [] => ret tt
  | a :: l' => _ <~ body a ;; for_each_st l' body
  end.

Definition unitscale_xv (xv xi_range : ref) : M ref :=
  xunit <~ deepcopy xv ;;
  rg <~ read_vector xi_range ;;
  lb <~ lift (index rg 0) ;;
  rb <~ lift (index rg 1) ;;
  x <~ read_vector xv ;;
  d <~ alloc (ONdarray (Arr1 (map (fun x => x - lb) x))) ;;
  y <~ read_vector d ;;
  alloc (ONdarray (Arr1 (map (fun y => y / (rb - lb)) y))).

Definition inverse_unitscale_xv (xv xi_range : ref) : M ref :=
  xreal <~ deepcopy xv ;;
  rg <~ read_vector xi_range ;;
  lb <~ lift (index rg 0) ;;
  rb <~ lift (index rg 1) ;;
  x <~ read_vector xv ;;
  p <~ alloc (ONdarray (Arr1 (map (fun x => (rb - lb) * x) x))) ;;
  y <~ read_vector p ;;
  alloc (ONdarray (Arr1 (map (fun y => lb + y) y))).

(** [if len(X.shape) < 2: X = copy.deepcopy(X); X = np.array([X])] *)
Definition promote_2d (X : ref) : M ref :=
  o <~ load X ;;
  match o with
  | ONdarray (Arr1 _) =>
      c <~ deepcopy X ;;
      v <~ read_vector c ;;
      alloc (ONdarray (Arr2 (mkMatrix (length v) [v])))
  | ONdarray (Arr2 _) => ret X
  | _ => lift (Raise TypeError)
  end.

(** [if X_range == []: X_range = [[0,1]] * dim
     else: X_range = np.transpose(X_range)]; the [dim] entries of the
    default list are one and the same inner list. *)
Definition ranges_by_column (X_range : ref) (dim : nat) : M ref :=
  o <~ load X_range ;;
  match o with
  | ORefs [] =>
      pair <~ alloc (OFloats [0; 1]) ;;
      outer <~ alloc (ORefs [pair]) ;;
      alloc (ORefs (repeat pair dim))
  | ORefs l =>
      rows <~ read_rows l ;;
      A <~ lift (np_array2 rows) ;;
      a <~ alloc (ONdarray (Arr2 A)) ;;
      alloc (OTransposed a)
  | _ => lift (Raise TypeError)
  end.

Definition flags_by_column (log_flags : ref) (dim : nat) : M ref :=
  l <~ read_bools log_flags ;;
  match l with
  | [] => alloc (OBools (repeat false dim))
  | _ => ret log_flags
  end.

(** [X_range[i]]: an entry of a list, or a row of a transposed view. *)
Definition getitem (X_range : ref) (i : nat) : M ref :=
  o <~ load X_range ;;
  match o with
  | ORefs l => lift (index l i)
  | OTransposed a =>
      m <~ read_matrix a ;;
      if (i <? n_cols m)%nat then alloc (OView a i)
      else lift (Raise IndexError)
  | _ => lift (Raise TypeError)
  end.

(** [M[:, i] = v] on the array at [target]. *)
Definition set_column (target : ref) (i : nat) (v : ref) : M unit :=
  x <~ read_vector v ;;
  m <~ read_matrix target ;;
  m' <~ lift (set_column m i x) ;;
  write target (ONdarray (Arr2 m')).

(** [np.log10(u)], [10 ** u]: a new array. *)
Definition map_array (f : R -> R) (u : ref) : M ref :=
  x <~ read_vector u ;;
  alloc (ONdarray (Arr1 (map f x))).

(** [if not decimals == None: M = np.around(M, decimals = decimals)] *)
Definition round_if {rnd : Around} (decimals : option Z) (X : ref)
    : M ref :=
  match decimals with
  | None => ret X
  | Some d => m <~ read_matrix X ;; alloc (ONdarray (Arr2 (np_around m d)))
  end.

Definition unitscale_X {rnd : Around} (X X_range log_flags : ref)
    (decimals : option Z) : M ref :=
  X <~ promote_2d X ;;
  m <~ read_matrix X ;;
  let dim := n_cols m in
  X_range <~ ranges_by_column X_range dim ;;
  log_flags <~ flags_by_column log_flags dim ;;
  Xunit <~ alloc (ONdarray (Arr2 (np_zeros (n_rows m) (n_cols m)))) ;;
  Xt <~ alloc (OTransposed X) ;;
  _ <~ for_each_st (seq 0 (n_cols m))
    (fun i =>
       xi <~ alloc (OView X i) ;;
       flags <~ read_bools log_flags ;;
       flag <~ lift (index flags i) ;;
       if flag : bool then
         r <~ getitem X_range i ;;
         u <~ unitscale_xv xi r ;;
         w <~ map_array log10 u ;;
         set_column Xunit i w
       else
         r <~ getitem X_range i ;;
         u <~ unitscale_xv xi r ;;
         set_column Xunit i u) ;;
  round_if decimals Xunit.

Definition inverse_unitscale_X {rnd : Around} (X X_range log_flags : ref)
    (decimals : option Z) : M ref :=
  X <~ promote_2d X ;;
  m <~ read_matrix X ;;
  let dim := n_cols m in
  X_range <~ ranges_by_column X_range dim ;;
  log_flags <~ flags_by_column log_flags dim ;;
  Xreal <~ alloc (ONdarray (Arr2 (np_zeros (n_rows m) (n_cols m)))) ;;
  Xt <~ alloc (OTransposed X) ;;
  _ <~ for_each_st (seq 0 (n_cols m))
    (fun i =>
       xi <~ alloc (OView X i) ;;
       flags <~ read_bools log_flags ;;
       flag <~ lift (index flags i) ;;
       if flag : bool then
         r <~ getitem X_range i ;;
         u <~ inverse_unitscale_xv xi r ;;
         w <~ map_array pow10 u ;;
         set_column Xreal i w
       else
         r <~ getitem X_range i ;;
         u <~ inverse_unitscale_xv xi r ;;
         set_column Xreal i u) ;;
  round_if decimals Xreal.

Definition of_matrixlike (X : MatrixLike2d) : pyobj :=
  match X with
  | NdArray m => ONdarray (Arr2 m)
  | Tensor m => OTensor m
  end.

(** The 2-D array or tensor at [r]. *)
Definition read_matrixlike (r : ref) : M MatrixLike2d :=
  o <~ load r ;;
  match o with
  | ONdarray (Arr2 m) => ret (NdArray m)
  | OTensor m => ret (Tensor m)
  | _ => lift (Raise TypeError)
  end.

(** A 1-D array or tensor, by the kind of [X]: what [X.mean(axis = 0)] and
    [X.std(axis = 0)] return. *)
Definition vector_like (X : MatrixLike2d) (v : list R) : pyobj :=
  match X with
  | NdArray _ => ONdarray (Arr1 v)
  | Tensor _ => OTensor1 v
  end.

(** [Python]'s [None] for an omitted argument is [None] here. *)
Definition standardize_X (X : ref) (X_mean X_std : option ref) : M ref :=
  x <~ read_matrixlike X ;;
  ms <~ match X_mean with
        | None =>
            mu <~ alloc (vector_like x (mean0 x)) ;;
            sd <~ alloc (vector_like x (std0 x)) ;;
            ret (mu, Some sd)
        | Some mu => ret (mu, X_std)
        end ;;
  let '(X_mean, X_std) := ms in
  mv <~ read_vector X_mean ;;
  D <~ lift (broadcast Rminus x mv) ;;
  d <~ alloc (of_matrixlike D) ;;
  match X_std with
  | None => lift (Raise TypeError)
  | Some s =>
      sv <~ read_vector s ;;
      Q <~ lift (broadcast Rdiv D sv) ;;
      alloc (of_matrixlike Q)
  end.

Definition inverse_standardize_X (X X_mean X_std : ref) : M ref :=
  o <~ load X ;;
  match o with
  | OTensor m =>
      sv <~ read_vector X_std ;;
      P <~ lift (torch_broadcast_rows Rmult m sv) ;;
      p <~ alloc (OTensor P) ;;
      mv <~ read_vector X_mean ;;
      S <~ lift (torch_broadcast_rows Rplus P mv) ;;
      alloc (OTensor S)
  | ONdarray (Arr2 m) =>
      sv <~ read_vector X_std ;;
      P <~ lift (broadcast_rows Rmult m sv) ;;
      p <~ alloc (ONdarray (Arr2 P)) ;;
      mv <~ read_vector X_mean ;;
      S <~ lift (broadcast_rows Rplus P mv) ;;
      alloc (ONdarray (Arr2 S))
  | _ => lift (Raise TypeError)
  end.

(** Every object of [h] is still in [h'], under the same reference and
    with the same content. *)
Definition unchanged (h h' : heap) : Prop :=
  forall r o, nth_error h r = Some o -> nth_error h' r = Some o.

(** A returned reference names an object that was not in [h]. *)
Definition fresh (h : heap) (res : result ref) : Prop :=
  forall r, res = Ok r -> (length h <= r)%nat.

(** A call that, from any store, changes no object of that store and
    returns a new object. *)
Definition pure_call (m : M ref) : Prop :=
  forall h, unchanged h (snd (m h)) /\ fresh h (fst (m h)).

(** The object at [r] is array-like and holds the numbers [v]. *)
Definition vector_at (h : heap) (r : ref) (v : list R) : Prop :=
  nth_error h r = Some (ONdarray (Arr1 v)) \/
  nth_error h r = Some (OTensor1 v) \/
  nth_error h r = Some (OFloats v) \/
  exists base j m,
    nth_error h r = Some (OView base j) /\
    nth_error h base = Some (ONdarray (Arr2 m)) /\
    v = column j (rows_of m).

(** The object at [r] is a nested list holding [rows]. *)
Definition nested_at (h : heap) (r : ref) (rows : list (list R)) : Prop :=
  exists l,
    nth_error h r = Some (ORefs l) /\
    Forall2 (fun ri row => nth_error h ri = Some (OFloats row)) l rows.

(** A run over the store agrees with a result over values: it returns
    a reference to an object holding the value, or raises the same error. *)
Definition agrees {A : Type} (wrap : A -> pyobj) (value : result A)
    (run : result ref * heap) : Prop :=
  match value with
  | Ok a => exists r, fst run = Ok r /\ nth_error (snd run) r = Some (wrap a)
  | Raise e => fst run = Raise e
  end.

(** From the store [h], the run [m] changes no object of [h] and agrees
    with [value]. *)
Definition simulates {A : Type} (wrap : A -> pyobj) (value : result A)
    (m : M ref) (h : heap) : Prop :=
  unchanged h (snd (m h)) /\ agrees wrap value (m h).

(** The object at [r] is what the loops index as [X_range[i]]: the default
    list, whose entries are one inner list [[0, 1]], or the transposed view
    of an array. *)
Definition ranges_at (h : heap) (r : ref) (ranges : list (list R)) : Prop :=
  (exists pair dim,
     nth_error h r = Some (ORefs (repeat pair dim)) /\
     nth_error h pair = Some (OFloats [0; 1]) /\
     ranges = repeat [0; 1] dim) \/
  (exists a A,
     nth_error h r = Some (OTransposed a) /\
     nth_error h a = Some (ONdarray (Arr2 A)) /\
     ranges = rows_of (np_transpose A)).

(** An optional argument: omitted on both sides, or a reference to an
    array-like object holding the value. *)
Definition option_at (h : heap) (r : option ref) (v : option (list R))
    : Prop :=
  match r, v with
  | None, None => True
  | Some r, Some v => vector_at h r v
  | _, _ => False
  end.

(** [m] leaves the first [n] objects of the store as they are, only adds
    objects, and returns values satisfying [Q]. *)
Definition preserves {A : Type} (n : nat) (m : M A) (Q : A -> Prop) : Prop :=
  forall h, (n <= length h)%nat ->
    firstn n (snd (m h)) = firstn n h /\
    (length h <= length (snd (m h)))%nat /\
    forall a, fst (m h) = Ok a -> Q a.

End Store.

(** ** The plotting helpers *)

(** [inverse_unitscale_xv] called on a 2-D grid; numpy's arithmetic is
    entry by entry whatever the number of axes. *)
Definition inverse_unitscale_xv_grid (xv : Matrix) (xi_range : list R)
    : result Matrix :=
  lb <- index xi_range 0 ;;
  rb <- index xi_range 1 ;;
  Ok (mkMatrix (n_cols xv)
        (map (map (fun x => lb + (rb - lb) * x)) (rows_of xv))).

(** [np.array(X_range).T], as the rows that indexing it gives; the empty
    list is a 1-D array without entries, and so is its transpose. *)
Definition np_array_T (X_range : list (list R)) : result (list (list R)) :=
  match X_range with
  | [] => Ok []
  | _ => A <- np_array2 X_range ;; Ok (rows_of (np_transpose A))
  end.

Definition transform_plot2D_X (X1 X2 : Matrix) (X_range : list (list R))
    : result (Matrix * Matrix) :=
  X_range <- np_array_T X_range ;;
  r0 <- index X_range 0 ;;
  X1 <- inverse_unitscale_xv_grid X1 r0 ;;
  r1 <- index X_range 1 ;;
  X2 <- inverse_unitscale_xv_grid X2 r1 ;;
  Ok (X1, X2).

(** [r] rows of [c] entries each, taken from [l] in order. *)
Fixpoint chunks (r c : nat) (l : list R) : list (list R) :=
  match r with
  | O => []
  | S r' => firstn c l :: chunks r' c (skipn c l)
  end.

(** [np.reshape(M, (n, n))]: the entries in row-major order, cut into [n]
    rows of [n]; numpy refuses a negative [n] (two unknown or negative
    dimensions) and a number of entries other than [n * n]. *)
Definition np_reshape_square (M : Matrix) (n : Z) : result Matrix :=
  if (n <? 0)%Z then Raise ValueError
  else
    let k := Z.to_nat n in
    let flat := concat (rows_of M) in
    if (length flat =? k * k)%nat then Ok (mkMatrix k (chunks k k flat))
    else Raise ValueError.

(** [X] holds the entries of the tensor; [X.clone()] and
    [.detach().numpy()] copy and convert without changing them.  The
    inverse standardisation of a tensor is a tensor, so the second branch
    is never taken. *)
Definition transform_plot2D_Y (X : Matrix) (X_mean X_std : list R)
    (mesh_size : Z) : result Matrix :=
  X_real <- inverse_standardize_X (Tensor X) X_mean X_std ;;
  match X_real with
  | Tensor m => np_reshape_square m mesh_size
  | NdArray _ => Raise TypeError
  end.

(** The bounds the matrix transforms use for column [i]: (0, 1) when
    [X_range] is omitted, entry [i] of its first and of its second row
    otherwise. *)
Definition column_bounds (X_range : list (list R)) (i : nat) : R * R :=
  match X_range with
  | [] => (0, 1)
  | lows :: highs :: _ => (nth i lows 0, nth i highs 0)
  | [_] => (0, 0)
  end.

(** A non-empty [X_range] that numpy makes an array of. *)
Definition rectangular (X_range : list (list R)) : Prop :=
  Forall (fun r => length r = length (hd [] X_range)) X_range.

(** * Properties *)

(** ** Lists, columns and the column loop *)

Lemma bind_ok {A B : Type} (m : result A) (k : A -> result B) (b : B) :
  bind m k = Ok b -> exists a, m = Ok a /\ k a = Ok b.
Proof. destruct m as [a|e]; simpl; [eauto | discriminate]. Qed.

Lemma index_ok {A : Type} (l : list A) (i : nat) (a : A) :
  nth_error l i = Some a -> index l i = Ok a.
Proof. unfold index; intros ->; reflexivity. Qed.

Lemma list_set_length (l : list R) (i : nat) (x : R) :
  length (list_set l i x) = length l.
Proof.
  revert i; induction l as [|h t IH]; intros [|i]; simpl; auto.
Qed.

Lemma list_set_same (l : list R) (i : nat) (x d : R) :
  (i < length l)%nat -> nth i (list_set l i x) d = x.
Proof.
  revert i; induction l as [|h t IH]; intros [|i] Hi; simpl in *; try lia; auto.
  apply IH; lia.
Qed.

Lemma list_set_other (l : list R) (i j : nat) (x d : R) :
  j <> i -> nth j (list_set l i x) d = nth j l d.
Proof.
  revert i j; induction l as [|h t IH]; intros [|i] [|j] Hij; simpl; auto;
    try congruence.
Qed.

Lemma zip_set_length (rows : list (list R)) (i : nat) (v : list R) :
  length v = length rows -> length (zip_set rows i v) = length rows.
Proof.
  revert v; induction rows as [|r rows IH]; intros [|x v] H; simpl in *;
    try discriminate; auto.
Qed.

Lemma zip_set_nth (rows : list (list R)) (i k : nat) (v : list R) :
  length v = length rows -> (k < length rows)%nat ->
  nth k (zip_set rows i v) [] = list_set (nth k rows []) i (nth k v 0).
Proof.
  revert v k; induction rows as [|r rows IH]; intros [|x v] [|k] H Hk;
    simpl in *; try discriminate; try lia; auto.
  apply IH; lia.
Qed.

Lemma zip_set_wf (c : nat) (rows : list (list R)) (i : nat) (v : list R) :
  Forall (fun r => length r = c) rows ->
  Forall (fun r => length r = c) (zip_set rows i v).
Proof.
  intros H; revert v; induction H as [|r rows Hr _ IH]; intros [|x v];
    simpl; constructor; auto.
  now rewrite list_set_length.
Qed.

Lemma np_zeros_wf (r c : nat) : wf_matrix (np_zeros r c).
Proof.
  unfold wf_matrix, np_zeros; simpl.
  apply Forall_forall; intros x Hx.
  apply repeat_spec in Hx; subst; apply repeat_length.
Qed.

Lemma set_column_shape (M M' : Matrix) (i : nat) (v : list R) :
  set_column M i v = Ok M' ->
  n_cols M' = n_cols M /\ n_rows M' = n_rows M /\ (wf_matrix M -> wf_matrix M').
Proof.
  unfold set_column, n_rows, wf_matrix.
  destruct (n_cols M <=? i)%nat; [discriminate|].
  destruct (length v =? length (rows_of M))%nat eqn:E.
  - intros [= <-]; simpl. apply Nat.eqb_eq in E.
    repeat split; auto using zip_set_length, zip_set_wf.
  - destruct (length v =? 1)%nat; [|discriminate].
    intros [= <-]; simpl. repeat split; auto using length_map.
    intros H. apply Forall_forall. intros r Hr.
    apply in_map_iff in Hr as (r0 & <- & Hr0).
    rewrite list_set_length. revert r0 Hr0. now apply Forall_forall.
Qed.

Lemma set_column_ok (M : Matrix) (i : nat) (v : list R) :
  (i < n_cols M)%nat -> length v = n_rows M ->
  set_column M i v = Ok (mkMatrix (n_cols M) (zip_set (rows_of M) i v)).
Proof.
  intros Hi Hv. unfold set_column.
  destruct (Nat.leb_spec (n_cols M) i); [lia|].
  now rewrite Hv, Nat.eqb_refl.
Qed.

Lemma for_enumerate_ext {A St : Type} (l : list A) (f g : nat -> A -> St -> result St) :
  (forall i a s, f i a s = g i a s) ->
  forall i s, for_enumerate l i s f = for_enumerate l i s g.
Proof.
  intros H; induction l as [|a l IH]; intros i s; simpl; auto.
  rewrite H. destruct (g i a s); simpl; auto.
Qed.

Lemma for_enumerate_invariant {A St : Type} (P : St -> Prop)
    (body : nat -> A -> St -> result St) :
  (forall i a s s', P s -> body i a s = Ok s' -> P s') ->
  forall l i s s', P s -> for_enumerate l i s body = Ok s' -> P s'.
Proof.
  intros Hb; induction l as [|a l IH]; intros i s s' Hs H; simpl in H.
  - now inversion H; subst.
  - apply bind_ok in H as (s1 & H1 & H2). eauto.
Qed.

(** The loop [for i, xi in enumerate(cols): M[:, i] = g i xi] fills the
    columns [i0 ..] of [M] with the vectors the body computes and leaves the
    other columns as they were. *)
Lemma for_enumerate_columns (g : nat -> list R -> result (list R))
    (val : nat -> list R) (r : nat) (cols : list (list R)) :
  forall (i0 : nat) (M0 : Matrix),
    wf_matrix M0 -> n_rows M0 = r ->
    (i0 + length cols <= n_cols M0)%nat ->
    (forall j, (j < length cols)%nat ->
       g (i0 + j)%nat (nth j cols []) = Ok (val (i0 + j)%nat) /\
       length (val (i0 + j)%nat) = r) ->
    exists M',
      for_enumerate cols i0 M0 (fun i xi M => v <- g i xi ;; set_column M i v)
        = Ok M' /\
      n_cols M' = n_cols M0 /\ n_rows M' = r /\ wf_matrix M' /\
      forall k i, (k < r)%nat ->
        entry M' k i =
          if ((i0 <=? i) && (i <? i0 + length cols))%nat
          then nth k (val i) 0 else entry M0 k i.
Proof.
  induction cols as [|xi cols IH]; intros i0 M0 Hwf Hr Hle Hg;
    cbn [for_enumerate length] in *.
  - exists M0. repeat split; auto.
    intros k i _. destruct (Nat.leb_spec i0 i); cbn [andb]; auto.
    destruct (Nat.ltb_spec i (i0 + 0)); auto; lia.
  - destruct (Hg 0%nat) as [Hg0 Hl0]; [lia|].
    rewrite Nat.add_0_r in Hg0, Hl0. cbn [nth] in Hg0. rewrite Hg0.
    cbn [bind]. rewrite set_column_ok by lia.
    set (M1 := mkMatrix (n_cols M0) (zip_set (rows_of M0) i0 (val i0))).
    assert (Hlen : length (val i0) = length (rows_of M0))
      by (unfold n_rows in Hr; lia).
    destruct (IH (S i0) M1) as (M' & HM' & Hc & Hn & Hw & He).
    + unfold M1, wf_matrix; cbn [rows_of n_cols]. now apply zip_set_wf.
    + unfold M1, n_rows; cbn [rows_of]. rewrite zip_set_length; auto.
    + unfold M1; cbn [n_cols]; lia.
    + intros j Hj. specialize (Hg (S j)). cbn [nth] in Hg.
      replace (S i0 + j)%nat with (i0 + S j)%nat by lia. apply Hg. lia.
    + exists M'. repeat split; auto.
      intros k i Hk. rewrite He by auto.
      assert (Hk' : (k < length (rows_of M0))%nat) by (unfold n_rows in Hr; lia).
      assert (Hrow : length (nth k (rows_of M0) []) = n_cols M0).
      { unfold wf_matrix in Hwf. rewrite Forall_forall in Hwf.
        apply Hwf, nth_In, Hk'. }
      assert (HM1 : entry M1 k i =
                    if (i =? i0)%nat then nth k (val i0) 0 else entry M0 k i).
      { unfold entry, M1; cbn [rows_of]. rewrite zip_set_nth by auto.
        destruct (Nat.eqb_spec i i0) as [->|Hne].
        - apply list_set_same; lia.
        - now apply list_set_other. }
      rewrite HM1.
      destruct (Nat.leb_spec (S i0) i), (Nat.ltb_spec i (S i0 + length cols)),
        (Nat.leb_spec i0 i), (Nat.ltb_spec i (i0 + S (length cols))),
        (Nat.eqb_spec i i0); cbn [andb]; subst; try lia; auto.
Qed.

Lemma column_nth (rows : list (list R)) (j k : nat) :
  nth k (column j rows) 0 = nth j (nth k rows []) 0.
Proof.
  unfold column. revert k; induction rows as [|r rows IH]; intros [|k];
    simpl; auto; now destruct j.
Qed.

Lemma column_length (rows : list (list R)) (j : nat) :
  length (column j rows) = length rows.
Proof. apply length_map. Qed.

Lemma np_transpose_row (M : Matrix) (i : nat) :
  (i < n_cols M)%nat ->
  nth i (rows_of (np_transpose M)) [] = column i (rows_of M).
Proof.
  intros Hi. unfold np_transpose; cbn [rows_of].
  rewrite (nth_indep _ [] (column 0 (rows_of M)))
    by (now rewrite length_map, length_seq).
  rewrite (map_nth (fun j => column j (rows_of M)) (seq 0 (n_cols M)) 0%nat i).
  now rewrite seq_nth.
Qed.

Lemma np_transpose_rows_length (M : Matrix) :
  length (rows_of (np_transpose M)) = n_cols M.
Proof. unfold np_transpose; cbn [rows_of]. now rewrite length_map, length_seq. Qed.

Section ColumnLoop.

(** The two matrix transforms run the same loop; [f] is the vector
    transform called on a column and [h] what is applied to its result
    when the column's flag is set. *)
Variable f : list R -> list R -> result (list R).
Variable h : R -> R.
Variable op : R -> R -> R -> R.
Hypothesis f_spec : forall xv r lb rb,
  nth_error r 0 = Some lb -> nth_error r 1 = Some rb ->
  f xv r = Ok (map (op lb rb) xv).

Lemma scale_loop (X : Matrix) (ranges : list (list R)) (flags : list bool)
    (lb rb : nat -> R) (fl : nat -> bool) :
  (forall i, (i < n_cols X)%nat ->
     exists r, nth_error ranges i = Some r /\
               nth_error r 0 = Some (lb i) /\ nth_error r 1 = Some (rb i)) ->
  (forall i, (i < n_cols X)%nat -> nth_error flags i = Some (fl i)) ->
  exists M,
    for_enumerate (rows_of (np_transpose X)) 0%nat
      (np_zeros (n_rows X) (n_cols X))
      (fun i xi M =>
         flag <- index flags i ;;
         if flag : bool then
           r <- index ranges i ;; u <- f xi r ;; set_column M i (map h u)
         else
           r <- index ranges i ;; u <- f xi r ;; set_column M i u) = Ok M /\
    n_cols M = n_cols X /\ n_rows M = n_rows X /\ wf_matrix M /\
    forall k i, (k < n_rows X)%nat -> (i < n_cols X)%nat ->
      entry M k i =
        if fl i then h (op (lb i) (rb i) (entry X k i))
        else op (lb i) (rb i) (entry X k i).
Proof.
  intros Hr Hf.
  set (g := fun (i : nat) (xi : list R) =>
              flag <- index flags i ;;
              r <- index ranges i ;;
              u <- f xi r ;;
              Ok (if flag : bool then map h u else u)).
  set (val := fun i : nat =>
                let u := map (op (lb i) (rb i)) (column i (rows_of X)) in
                if fl i then map h u else u).
  destruct (for_enumerate_columns g val (n_rows X)
              (rows_of (np_transpose X)) 0%nat (np_zeros (n_rows X) (n_cols X)))
    as (M & HM & Hc & Hn & Hw & He).
  - apply np_zeros_wf.
  - unfold n_rows, np_zeros; cbn [rows_of]. apply repeat_length.
  - rewrite np_transpose_rows_length. cbn. lia.
  - intros j Hj. rewrite np_transpose_rows_length in Hj. cbn [Nat.add].
    rewrite np_transpose_row by auto.
    destruct (Hr j Hj) as (r & Hr0 & Hlb & Hrb).
    unfold g, val. rewrite (index_ok _ _ _ (Hf j Hj)), (index_ok _ _ _ Hr0).
    cbn [bind]. rewrite (f_spec _ _ _ _ Hlb Hrb). cbn [bind]. split; auto.
    destruct (fl j); rewrite ?length_map; apply column_length.
  - exists M. split; [|repeat split; auto].
    + rewrite <- HM. apply for_enumerate_ext. intros i xi s. unfold g.
      destruct (index flags i) as [[|]|]; cbn [bind]; auto;
        destruct (index ranges i); cbn [bind]; auto;
        destruct (f xi a); cbn [bind]; auto.
    + intros k i Hk Hi. rewrite He by auto.
      rewrite np_transpose_rows_length. cbn [Nat.add Nat.leb andb].
      destruct (Nat.ltb_spec i (n_cols X)); [|lia].
      unfold val; cbv zeta.
      assert (Hk' : (k < length (column i (rows_of X)))%nat)
        by (rewrite column_length; exact Hk).
      assert (E : forall (F : R -> R) l, (k < length l)%nat ->
                    nth k (map F l) 0 = F (nth k l 0)).
      { intros F l Hl. rewrite (nth_indep _ 0 (F 0)) by (now rewrite length_map).
        apply map_nth. }
      destruct (fl i).
      * rewrite E by (now rewrite length_map). rewrite E by auto.
        now rewrite column_nth.
      * rewrite E by auto. now rewrite column_nth.
Qed.

End ColumnLoop.

(** ** The vector transforms *)

Lemma unitscale_xv_spec (xv r : list R) (lb rb : R) :
  nth_error r 0 = Some lb -> nth_error r 1 = Some rb ->
  unitscale_xv xv r = Ok (map (fun x => (x - lb) / (rb - lb)) xv).
Proof.
  intros H0 H1. unfold unitscale_xv.
  now rewrite (index_ok _ _ _ H0), (index_ok _ _ _ H1).
Qed.

Lemma inverse_unitscale_xv_spec (xv r : list R) (lb rb : R) :
  nth_error r 0 = Some lb -> nth_error r 1 = Some rb ->
  inverse_unitscale_xv xv r = Ok (map (fun x => lb + (rb - lb) * x) xv).
Proof.
  intros H0 H1. unfold inverse_unitscale_xv.
  now rewrite (index_ok _ _ _ H0), (index_ok _ _ _ H1).
Qed.

(** C4: for every vector [xv] and every range whose two bounds differ, the
    vector inverse transform applied to the vector forward transform of [xv]
    gives [xv] back. *)
Theorem unitscale_xv_roundtrip (xv r : list R) (lo hi : R) :
  nth_error r 0 = Some lo -> nth_error r 1 = Some hi -> lo <> hi ->
  (u <- unitscale_xv xv r ;; inverse_unitscale_xv u r) = Ok xv.
Proof.
  intros H0 H1 Hne.
  rewrite (unitscale_xv_spec _ _ _ _ H0 H1). cbn [bind].
  rewrite (inverse_unitscale_xv_spec _ _ _ _ H0 H1). f_equal.
  rewrite map_map. rewrite <- (map_id xv) at 2.
  apply map_ext. intros x. field. lra.
Qed.

Lemma unitscale_xv_roundtrip_witness :
  nth_error [0; 100] 0 = Some 0 /\ nth_error [0; 100] 1 = Some 100 /\
  0 <> 100 /\
  (u <- unitscale_xv [50; 75] [0; 100] ;; inverse_unitscale_xv u [0; 100])
    = Ok [50; 75].
Proof.
  assert (H0 : nth_error [0; 100] 0 = Some 0) by reflexivity.
  assert (H1 : nth_error [0; 100] 1 = Some 100) by reflexivity.
  assert (Hne : 0 <> 100) by lra.
  split; [exact H0|]. split; [exact H1|]. split; [exact Hne|].
  exact (unitscale_xv_roundtrip [50; 75] [0; 100] 0 100 H0 H1 Hne).
Defined.

(** ** The ranges and flags a column gets *)

Lemma nth_error_repeat_lt {A : Type} (a : A) (n i : nat) :
  (i < n)%nat -> nth_error (repeat a n) i = Some a.
Proof.
  revert i; induction n as [|n IH]; intros [|i] H; simpl; try lia; auto.
  apply IH; lia.
Qed.

Lemma nth_error_map_seq {A : Type} (F : nat -> A) (n i : nat) :
  (i < n)%nat -> nth_error (map F (seq 0 n)) i = Some (F i).
Proof.
  intros H. rewrite nth_error_map, nth_error_nth' with (d := 0%nat)
    by (now rewrite length_seq).
  now rewrite seq_nth.
Qed.

Lemma ranges_by_column_default (dim i : nat) :
  (i < dim)%nat ->
  exists ranges, ranges_by_column [] dim = Ok ranges /\
                 nth_error ranges i = Some [0; 1].
Proof.
  intros H. eexists; split; [reflexivity|]. now apply nth_error_repeat_lt.
Qed.

(** A supplied [X_range] is read through its transpose: column [i] gets
    the pair made of entry [i] of its first row and entry [i] of its second
    row. *)
Lemma ranges_by_column_supplied (lows highs : list R) (rest : list (list R))
    (dim : nat) :
  Forall (fun r => length r = length lows) (highs :: rest) ->
  exists ranges,
    ranges_by_column (lows :: highs :: rest) dim = Ok ranges /\
    forall i, (i < length lows)%nat ->
      exists r, nth_error ranges i = Some r /\
                nth_error r 0 = Some (nth i lows 0) /\
                nth_error r 1 = Some (nth i highs 0).
Proof.
  intros Hrect. unfold ranges_by_column, np_array2. cbn [hd].
  assert (E : forallb (fun r => (length r =? length lows)%nat)
                (lows :: highs :: rest) = true).
  { apply forallb_forall. intros r [<-|Hr]; [apply Nat.eqb_refl|].
    apply Nat.eqb_eq. rewrite Forall_forall in Hrect. now apply Hrect. }
  rewrite E. cbn [bind]. eexists; split; [reflexivity|].
  intros i Hi. unfold np_transpose; cbn [rows_of n_cols].
  exists (column i (lows :: highs :: rest)). split.
  - now apply (nth_error_map_seq (fun j => column j (lows :: highs :: rest))).
  - split; reflexivity.
Qed.

Lemma flags_by_column_nth (flags : list bool) (dim i : nat) :
  (i < dim)%nat -> flags = [] \/ (dim <= length flags)%nat ->
  nth_error (flags_by_column flags dim) i = Some (nth i flags false).
Proof.
  intros Hi [->|Hlen].
  - cbn [flags_by_column]. rewrite nth_error_repeat_lt by auto. now destruct i.
  - destruct flags as [|b flags]; [simpl in Hlen; lia|].
    cbn [flags_by_column]. apply nth_error_nth'. lia.
Qed.

(** ** The matrix transforms, entry by entry *)

Lemma unitscale_X_entries {rnd : Around} (X : ndarray) (X_range : list (list R))
    (flags : list bool) (decimals : option Z) (ranges : list (list R))
    (lb rb : nat -> R) :
  let X2 := promote_2d X in
  ranges_by_column X_range (n_cols X2) = Ok ranges ->
  (forall i, (i < n_cols X2)%nat ->
     exists r, nth_error ranges i = Some r /\
               nth_error r 0 = Some (lb i) /\ nth_error r 1 = Some (rb i)) ->
  flags = [] \/ (n_cols X2 <= length flags)%nat ->
  exists M,
    unitscale_X X X_range flags decimals = Ok (round_if decimals M) /\
    n_cols M = n_cols X2 /\ n_rows M = n_rows X2 /\ wf_matrix M /\
    forall k i, (k < n_rows X2)%nat -> (i < n_cols X2)%nat ->
      entry M k i =
        if nth i flags false
        then log10 ((entry X2 k i - lb i) / (rb i - lb i))
        else (entry X2 k i - lb i) / (rb i - lb i).
Proof.
  intros X2 Hranges Hr Hf.
  destruct (scale_loop unitscale_xv log10 (fun l r x => (x - l) / (r - l))
              unitscale_xv_spec X2 ranges
              (flags_by_column flags (n_cols X2)) lb rb
              (fun i => nth i flags false) Hr)
    as (M & HM & Hrest).
  - intros i Hi. now apply flags_by_column_nth.
  - exists M. split; [|exact Hrest].
    unfold unitscale_X. fold X2. rewrite Hranges. cbn [bind].
    rewrite HM. reflexivity.
Qed.

Lemma inverse_unitscale_X_entries {rnd : Around} (X : ndarray) (X_range : list (list R))
    (flags : list bool) (decimals : option Z) (ranges : list (list R))
    (lb rb : nat -> R) :
  let X2 := promote_2d X in
  ranges_by_column X_range (n_cols X2) = Ok ranges ->
  (forall i, (i < n_cols X2)%nat ->
     exists r, nth_error ranges i = Some r /\
               nth_error r 0 = Some (lb i) /\ nth_error r 1 = Some (rb i)) ->
  flags = [] \/ (n_cols X2 <= length flags)%nat ->
  exists M,
    inverse_unitscale_X X X_range flags decimals = Ok (round_if decimals M) /\
    n_cols M = n_cols X2 /\ n_rows M = n_rows X2 /\ wf_matrix M /\
    forall k i, (k < n_rows X2)%nat -> (i < n_cols X2)%nat ->
      entry M k i =
        if nth i flags false
        then pow10 (lb i + (rb i - lb i) * entry X2 k i)
        else lb i + (rb i - lb i) * entry X2 k i.
Proof.
  intros X2 Hranges Hr Hf.
  destruct (scale_loop inverse_unitscale_xv pow10 (fun l r x => l + (r - l) * x)
              inverse_unitscale_xv_spec X2 ranges
              (flags_by_column flags (n_cols X2)) lb rb
              (fun i => nth i flags false) Hr)
    as (M & HM & Hrest).
  - intros i Hi. now apply flags_by_column_nth.
  - exists M. split; [|exact Hrest].
    unfold inverse_unitscale_X. fold X2. rewrite Hranges. cbn [bind].
    rewrite HM. reflexivity.
Qed.

(** C10: a supplied, non-empty [X_range] is transposed before use: with its
    first row [lows] and its second row [highs], both matrix transforms
    succeed and scale column [i] of the data with the pair
    [(lows[i], highs[i])]. *)
Theorem X_range_rows_are_bounds {rnd : Around} (X : ndarray) (lows highs : list R)
    (rest : list (list R)) (flags : list bool) :
  let X2 := promote_2d X in
  let X_range := lows :: highs :: rest in
  Forall (fun r => length r = length lows) (highs :: rest) ->
  (n_cols X2 <= length lows)%nat ->
  flags = [] \/ (n_cols X2 <= length flags)%nat ->
  exists U V,
    unitscale_X X X_range flags None = Ok U /\
    inverse_unitscale_X X X_range flags None = Ok V /\
    forall k i, (k < n_rows X2)%nat -> (i < n_cols X2)%nat ->
      let lb := nth i lows 0 in
      let rb := nth i highs 0 in
      entry U k i =
        (if nth i flags false
         then log10 ((entry X2 k i - lb) / (rb - lb))
         else (entry X2 k i - lb) / (rb - lb)) /\
      entry V k i =
        (if nth i flags false
         then pow10 (lb + (rb - lb) * entry X2 k i)
         else lb + (rb - lb) * entry X2 k i).
Proof.
  intros X2 X_range Hrect Hdim Hflags.
  destruct (ranges_by_column_supplied lows highs rest (n_cols X2) Hrect)
    as (ranges & Hranges & Hnth).
  assert (Hr : forall i, (i < n_cols X2)%nat ->
     exists r, nth_error ranges i = Some r /\
               nth_error r 0 = Some (nth i lows 0) /\
               nth_error r 1 = Some (nth i highs 0))
    by (intros i Hi; apply Hnth; lia).
  destruct (unitscale_X_entries X X_range flags None ranges _ _ Hranges Hr Hflags)
    as (U & HU & _ & _ & _ & HUe).
  destruct (inverse_unitscale_X_entries X X_range flags None ranges _ _
              Hranges Hr Hflags) as (V & HV & _ & _ & _ & HVe).
  exists U, V. repeat split; auto.
Qed.

Lemma X_range_rows_are_bounds_witness :
  exists U V,
    unitscale_X (rnd := around_exact) (Arr1 [50]) [[0]; [100]] [] None = Ok U /\
    inverse_unitscale_X (rnd := around_exact)
      (Arr1 [50]) [[0]; [100]] [] None = Ok V /\
    forall k i, (k < 1)%nat -> (i < 1)%nat ->
      let lb := nth i [0] 0 in
      let rb := nth i [100] 0 in
      entry U k i =
        (if nth i [] false
         then log10 ((entry (promote_2d (Arr1 [50])) k i - lb) / (rb - lb))
         else (entry (promote_2d (Arr1 [50])) k i - lb) / (rb - lb)) /\
      entry V k i =
        (if nth i [] false
         then pow10 (lb + (rb - lb) * entry (promote_2d (Arr1 [50])) k i)
         else lb + (rb - lb) * entry (promote_2d (Arr1 [50])) k i).
Proof.
  apply (X_range_rows_are_bounds (rnd := around_exact)
           (Arr1 [50]) [0] [100] [] []).
  - repeat constructor.
  - simpl; lia.
  - left; reflexivity.
Defined.

(** ** Concrete runs *)

Ltac run_numpy :=
  cbv [unitscale_X inverse_unitscale_X promote_2d ranges_by_column np_array2
       hd forallb length Nat.eqb andb bind np_transpose rows_of n_cols n_rows
       seq map column nth flags_by_column repeat np_zeros for_enumerate index
       nth_error unitscale_xv inverse_unitscale_xv set_column Nat.leb zip_set
       list_set round_if].

Lemma ln_10_neq_0 : ln 10 <> 0.
Proof. apply ln_neq_0; lra. Qed.

Lemma log10_1 : log10 1 = 0.
Proof. unfold log10. rewrite ln_1. field. exact ln_10_neq_0. Qed.

Lemma pow10_0 : pow10 0 = 1.
Proof. unfold pow10. apply Rpower_O. lra. Qed.

Lemma pow10_log10 (y : R) : 0 < y -> pow10 (log10 y) = y.
Proof.
  intros Hy. unfold pow10, log10.
  apply (Rpower_Rlog 10 y); lra.
Qed.

Lemma unitscale_X_one_pair_raises {rnd : Around} :
  unitscale_X (Arr1 [50]) [[0; 100]] [] None = Raise IndexError.
Proof. run_numpy. reflexivity. Qed.

(** C3 (as amended): on the one-entry input [50] with the range given as
    the row of lower bounds [[0]] and the row of upper bounds [[100]], the
    matrix forward transform returns the one-by-one matrix holding 1/2; given
    the single pair [[0, 100]] instead it fails with an index error; and the
    vector inverse transform of [1/2] with the range [0, 100] returns [50]. *)
Theorem unitscale_example {rnd : Around} :
  unitscale_X (Arr1 [50]) [[0]; [100]] [] None = Ok (mkMatrix 1 [[1 / 2]]) /\
  unitscale_X (Arr1 [50]) [[0; 100]] [] None = Raise IndexError /\
  inverse_unitscale_xv [1 / 2] [0; 100] = Ok [50].
Proof.
  split; [|split].
  - run_numpy. do 4 f_equal. lra.
  - exact unitscale_X_one_pair_raises.
  - run_numpy. do 2 f_equal. lra.
Qed.

(** C3 (as stated) fails: with [X_range = [[0, 100]]] the forward transform
    does not return [[0.5]], whatever rounding [np.around] does. *)
Lemma unitscale_example_as_stated_fails :
  ~ (exists rnd : Around,
       unitscale_X (Arr1 [50]) [[0; 100]] [] None
         = Ok (mkMatrix 1 [[1 / 2]]) /\
       inverse_unitscale_xv [1 / 2] [0; 100] = Ok [50]).
Proof.
  intros (rnd & H & _). rewrite unitscale_X_one_pair_raises in H.
  discriminate H.
Qed.

(** ** The log flag: forward and inverse do not compose to the identity *)

(** What the inverse transform has to compute on a flagged column to undo
    the forward one, in the order the specification gives: exponentiate,
    then scale back. *)
Lemma specified_order_roundtrip (x lb rb : R) :
  lb < rb -> lb < x ->
  lb + (rb - lb) * pow10 (log10 ((x - lb) / (rb - lb))) = x.
Proof.
  intros Hr Hx. rewrite pow10_log10.
  - field. lra.
  - apply Rdiv_lt_0_compat; lra.
Qed.

Lemma inverse_unitscale_X_at_zero {rnd : Around} :
  inverse_unitscale_X (Arr2 (mkMatrix 1 [[0]])) [[0]; [2]] [true] None
    = Ok (mkMatrix 1 [[1]]).
Proof.
  run_numpy. do 4 f_equal.
  replace (0 + (2 - 0) * 0) with 0 by lra. apply pow10_0.
Qed.

(** C1 (the code at the failing input): the matrix [[2]] with the range
    [0, 2] and the log flag set is sent to [[0]] by the forward transform,
    and the inverse transform with the same range and flag sends that to
    [[1]], not back to [[2]]. *)
Theorem log_roundtrip_fails {rnd : Around} :
  let X := mkMatrix 1 [[2]] in
  let X_range := [[0]; [2]] in
  unitscale_X (Arr2 X) X_range [true] None = Ok (mkMatrix 1 [[0]]) /\
  (U <- unitscale_X (Arr2 X) X_range [true] None ;;
   inverse_unitscale_X (Arr2 U) X_range [true] None) = Ok (mkMatrix 1 [[1]]) /\
  (U <- unitscale_X (Arr2 X) X_range [true] None ;;
   inverse_unitscale_X (Arr2 U) X_range [true] None) <> Ok X.
Proof.
  assert (F : unitscale_X (Arr2 (mkMatrix 1 [[2]])) [[0]; [2]] [true] None
              = Ok (mkMatrix 1 [[0]])).
  { run_numpy. do 4 f_equal.
    replace ((2 - 0) / (2 - 0)) with 1 by (field; lra). apply log10_1. }
  cbv zeta. rewrite F. cbn [bind]. rewrite inverse_unitscale_X_at_zero.
  split; [reflexivity|]. split; [reflexivity|].
  intros [= H]. lra.
Qed.

(** C2 (the code at the failing input): on the flagged one-by-one input
    [[0]] with the range [0, 2] the inverse matrix transform returns
    [10 ** (0 + 2 * 0) = 1]: it scales back first and exponentiates last.
    Exponentiating first and scaling back afterwards, as the claim has it,
    gives [0 + 2 * 10 ** 0 = 2]. *)
Theorem inverse_unitscale_X_exponentiates_last {rnd : Around} :
  inverse_unitscale_X (Arr2 (mkMatrix 1 [[0]])) [[0]; [2]] [true] None
    = Ok (mkMatrix 1 [[1]]) /\
  inverse_unitscale_xv (map pow10 [0]) [0; 2] = Ok [2].
Proof.
  split; [exact inverse_unitscale_X_at_zero|].
  run_numpy. do 2 f_equal. rewrite pow10_0. lra.
Qed.

(** ** Shapes *)

Lemma scale_body_shape (f : list R -> list R -> result (list R)) (h : R -> R)
    (flags : list bool) (ranges : list (list R)) (r c i : nat) (xi : list R)
    (M M' : Matrix) :
  n_cols M = c /\ n_rows M = r /\ wf_matrix M ->
  (flag <- index flags i ;;
   if flag : bool then
     rg <- index ranges i ;; u <- f xi rg ;; set_column M i (map h u)
   else
     rg <- index ranges i ;; u <- f xi rg ;; set_column M i u) = Ok M' ->
  n_cols M' = c /\ n_rows M' = r /\ wf_matrix M'.
Proof.
  intros (Hc & Hr & Hw) H.
  apply bind_ok in H as (flag & _ & H).
  destruct flag;
    apply bind_ok in H as (rg & _ & H);
    apply bind_ok in H as (u & _ & H);
    apply set_column_shape in H as (Hc' & Hr' & Hw');
    repeat split; try congruence; auto.
Qed.

Lemma round_if_shape {rnd : Around} (decimals : option Z) (M : Matrix) :
  n_cols (round_if decimals M) = n_cols M /\
  n_rows (round_if decimals M) = n_rows M /\
  (wf_matrix M -> wf_matrix (round_if decimals M)).
Proof.
  destruct decimals as [d|]; cbn [round_if]; auto.
  unfold np_around, n_rows, wf_matrix; cbn [n_cols rows_of].
  rewrite length_map. repeat split; auto.
  intros H. apply Forall_forall. intros r Hr.
  apply in_map_iff in Hr as (r0 & <- & Hr0). rewrite length_map.
  revert r0 Hr0. now apply Forall_forall.
Qed.

Lemma ranges_fit_columns (X_range : list (list R)) (dim : nat) :
  ranges_fit X_range dim ->
  exists ranges (lb rb : nat -> R),
    ranges_by_column X_range dim = Ok ranges /\
    forall i, (i < dim)%nat ->
      exists r, nth_error ranges i = Some r /\
                nth_error r 0 = Some (lb i) /\ nth_error r 1 = Some (rb i).
Proof.
  intros [->|(lows & highs & rest & -> & Hrect & Hdim)].
  - exists (repeat [0; 1] dim), (fun _ => 0), (fun _ => 1).
    split; [reflexivity|]. intros i Hi. exists [0; 1].
    split; [now apply nth_error_repeat_lt | split; reflexivity].
  - destruct (ranges_by_column_supplied lows highs rest dim Hrect)
      as (ranges & Hranges & Hnth).
    exists ranges, (fun i => nth i lows 0), (fun i => nth i highs 0).
    split; auto. intros i Hi. apply Hnth. lia.
Qed.

(** The two matrix transforms return when the ranges and flags fit. *)
Lemma scale_transforms_return {rnd : Around} (X : ndarray) (X_range : list (list R))
    (flags : list bool) (decimals : option Z) :
  ranges_fit X_range (n_cols (promote_2d X)) ->
  flags_fit flags (n_cols (promote_2d X)) ->
  exists U V,
    unitscale_X X X_range flags decimals = Ok U /\
    inverse_unitscale_X X X_range flags decimals = Ok V.
Proof.
  intros Hr Hf.
  destruct (ranges_fit_columns _ _ Hr) as (ranges & lb & rb & Hranges & Hnth).
  destruct (unitscale_X_entries X X_range flags decimals ranges lb rb
              Hranges Hnth Hf) as (U & HU & _).
  destruct (inverse_unitscale_X_entries X X_range flags decimals ranges lb rb
              Hranges Hnth Hf) as (V & HV & _).
  eauto.
Qed.

Lemma scale_result_shape {rnd : Around} (X : ndarray) (X_range : list (list R))
    (flags : list bool) (decimals : option Z) (M : Matrix) :
  unitscale_X X X_range flags decimals = Ok M \/
  inverse_unitscale_X X X_range flags decimals = Ok M ->
  n_cols M = n_cols (promote_2d X) /\
  n_rows M = n_rows (promote_2d X) /\ wf_matrix M.
Proof.
  intros [H|H];
    [unfold unitscale_X in H | unfold inverse_unitscale_X in H];
    cbv zeta in H;
    apply bind_ok in H as (ranges & _ & H);
    apply bind_ok in H as (M1 & Hloop & H);
    injection H as <-;
    (eapply for_enumerate_invariant
       with (P := fun M => n_cols M = n_cols (promote_2d X) /\
                           n_rows M = n_rows (promote_2d X) /\ wf_matrix M)
       in Hloop;
     [ destruct Hloop as (Hc & Hr & Hw);
       destruct (round_if_shape decimals M1) as (Hc' & Hr' & Hw');
       repeat split; try congruence; auto
     | intros i xi s s' Hs Hb; eapply scale_body_shape; eassumption
     | repeat split; [apply repeat_length | apply np_zeros_wf] ]).
Qed.

(** The shape a matrix transform has to return for the input [X]. *)
Lemma promoted_shape (X : ndarray) (M : Matrix) :
  n_cols M = n_cols (promote_2d X) -> n_rows M = n_rows (promote_2d X) ->
  shape (Arr2 M) =
    match X with
    | Arr1 v => [1%nat; length v]
    | Arr2 m => shape (Arr2 m)
    end.
Proof. intros Hc Hr. cbn [shape]. rewrite Hc, Hr. now destruct X. Qed.

(** C8: when the ranges and flags fit the input, both matrix transforms
    return, and whatever either of them returns has as many rows and columns
    as a 2-D input, and one row and [d] columns for a 1-D input of length
    [d]; every row of the result has that many entries. *)
Theorem scale_transforms_preserve_shape {rnd : Around} (X : ndarray) (X_range : list (list R))
    (flags : list bool) (decimals : option Z) :
  let expected :=
    match X with
    | Arr1 v => [1%nat; length v]
    | Arr2 m => shape (Arr2 m)
    end in
  (ranges_fit X_range (n_cols (promote_2d X)) ->
   flags_fit flags (n_cols (promote_2d X)) ->
   exists U V,
     unitscale_X X X_range flags decimals = Ok U /\
     inverse_unitscale_X X X_range flags decimals = Ok V) /\
  (forall M,
     unitscale_X X X_range flags decimals = Ok M \/
     inverse_unitscale_X X X_range flags decimals = Ok M ->
     shape (Arr2 M) = expected /\ wf_matrix M).
Proof.
  cbv zeta. split.
  - apply scale_transforms_return.
  - intros M H.
    destruct (scale_result_shape X X_range flags decimals M H) as (Hc & Hr & Hw).
    split; auto using promoted_shape.
Qed.

Lemma scale_transforms_preserve_shape_witness :
  ranges_fit [[0]; [100]] 1 /\ flags_fit [] 1 /\
  (exists U V,
     unitscale_X (rnd := around_exact)
       (Arr1 [50]) [[0]; [100]] [] None = Ok U /\
     inverse_unitscale_X (rnd := around_exact)
       (Arr1 [50]) [[0]; [100]] [] None = Ok V) /\
  (unitscale_X (rnd := around_exact)
     (Arr1 [50]) [[0]; [100]] [] None = Ok (mkMatrix 1 [[1 / 2]]) \/
   inverse_unitscale_X (rnd := around_exact) (Arr1 [50]) [[0]; [100]] [] None
     = Ok (mkMatrix 1 [[1 / 2]])) /\
  shape (Arr2 (mkMatrix 1 [[1 / 2]])) = [1%nat; length [50]] /\
  wf_matrix (mkMatrix 1 [[1 / 2]]).
Proof.
  assert (Hr : ranges_fit [[0]; [100]] 1).
  { right. exists [0], [100], []. repeat split; auto. }
  assert (Hf : flags_fit [] 1) by (left; reflexivity).
  assert (H : unitscale_X (rnd := around_exact) (Arr1 [50]) [[0]; [100]] [] None
              = Ok (mkMatrix 1 [[1 / 2]]))
    by (run_numpy; do 4 f_equal; lra).
  destruct (scale_transforms_preserve_shape (rnd := around_exact)
              (Arr1 [50]) [[0]; [100]] [] None)
    as [Hret Hshape].
  split; [exact Hr|]. split; [exact Hf|]. split; [exact (Hret Hr Hf)|].
  split; [left; exact H|].
  apply Hshape. left; exact H.
Defined.

(** ** Standardisation *)

Lemma np_mean0_length (X : Matrix) : length (np_mean0 X) = n_cols X.
Proof. unfold np_mean0. now rewrite length_map, length_seq. Qed.

Lemma np_std0_length (X : Matrix) : length (np_std0 X) = n_cols X.
Proof. unfold np_std0. now rewrite length_map, length_seq. Qed.

Lemma broadcast_rows_same_length (op : R -> R -> R) (M : Matrix) (v : list R) :
  length v = n_cols M ->
  broadcast_rows op M v =
    Ok (mkMatrix (n_cols M) (map (fun r => zip_with op r v) (rows_of M))).
Proof. intros H. unfold broadcast_rows. now rewrite H, Nat.eqb_refl. Qed.

Lemma torch_std0_length (X : Matrix) : length (torch_std0 X) = n_cols X.
Proof. unfold torch_std0. now rewrite length_map, length_seq. Qed.

Lemma mean0_length (X : MatrixLike2d) : length (mean0 X) = n_cols (matrix_of X).
Proof. apply np_mean0_length. Qed.

Lemma std0_length (X : MatrixLike2d) : length (std0 X) = n_cols (matrix_of X).
Proof. destruct X; [apply np_std0_length | apply torch_std0_length]. Qed.

Lemma torch_broadcast_rows_same_length (op : R -> R -> R) (M : Matrix)
    (v : list R) :
  length v = n_cols M ->
  torch_broadcast_rows op M v =
    Ok (mkMatrix (n_cols M) (map (fun r => zip_with op r v) (rows_of M))).
Proof.
  intros H. unfold torch_broadcast_rows.
  now rewrite broadcast_rows_same_length.
Qed.

Lemma broadcast_same_length (op : R -> R -> R) (X : MatrixLike2d)
    (v : list R) :
  length v = n_cols (matrix_of X) ->
  broadcast op X v =
    Ok (like X (mkMatrix (n_cols (matrix_of X))
                  (map (fun r => zip_with op r v) (rows_of (matrix_of X))))).
Proof.
  intros H. destruct X as [m|m]; cbn [broadcast matrix_of like] in *.
  - now rewrite broadcast_rows_same_length.
  - now rewrite torch_broadcast_rows_same_length.
Qed.

Lemma inverse_standardize_X_same_length (X : MatrixLike2d) (m s : list R) :
  length m = n_cols (matrix_of X) -> length s = n_cols (matrix_of X) ->
  inverse_standardize_X X m s =
    Ok (like X (mkMatrix (n_cols (matrix_of X))
                  (map (fun r => zip_with Rplus (zip_with Rmult r s) m)
                     (rows_of (matrix_of X))))).
Proof.
  intros Hm Hs.
  destruct X as [x|x]; cbn [inverse_standardize_X matrix_of like] in *.
  - rewrite broadcast_rows_same_length by assumption. cbn [bind].
    rewrite broadcast_rows_same_length by assumption.
    cbn [bind n_cols rows_of]. now rewrite map_map.
  - rewrite torch_broadcast_rows_same_length by assumption. cbn [bind].
    rewrite torch_broadcast_rows_same_length by assumption.
    cbn [bind n_cols rows_of]. now rewrite map_map.
Qed.

Lemma standardize_X_same_length (X : MatrixLike2d) (m s : list R) :
  length m = n_cols (matrix_of X) -> length s = n_cols (matrix_of X) ->
  standardize_X X (Some m) (Some s) =
    Ok (like X (mkMatrix (n_cols (matrix_of X))
                  (map (fun r => zip_with Rdiv (zip_with Rminus r m) s)
                     (rows_of (matrix_of X))))).
Proof.
  intros Hm Hs. unfold standardize_X.
  rewrite broadcast_same_length by assumption. cbn [bind].
  rewrite broadcast_same_length
    by (destruct X; cbn [like matrix_of n_cols]; assumption).
  destruct X; cbn [like matrix_of n_cols rows_of]; now rewrite map_map.
Qed.

Lemma standardize_X_omitted_statistics (X : MatrixLike2d) :
  standardize_X X None None = standardize_X X (Some (mean0 X)) (Some (std0 X)).
Proof. reflexivity. Qed.

Lemma like_matrix_of (X : MatrixLike2d) : like X (matrix_of X) = X.
Proof. now destruct X. Qed.

Lemma matrix_of_like (X : MatrixLike2d) (m : Matrix) :
  matrix_of (like X m) = m.
Proof. now destruct X. Qed.

Lemma like_like (X : MatrixLike2d) (m m' : Matrix) :
  like (like X m) m' = like X m'.
Proof. now destruct X. Qed.

Lemma standardize_row_roundtrip (r m s : list R) :
  length r = length m -> length m = length s -> Forall (fun x => x <> 0) s ->
  zip_with Rplus (zip_with Rmult (zip_with Rdiv (zip_with Rminus r m) s) s) m = r.
Proof.
  revert m s. induction r as [|x r IH]; intros [|y m] [|z s] Hm Hs Hnz;
    simpl in *; try discriminate; auto.
  inversion Hnz; subst. f_equal.
  - field. assumption.
  - apply IH; auto.
Qed.

(** Standardising with a mean and a standard deviation, one per column and
    the latter never zero, and going back with the same two gives the
    matrix again, array or tensor. *)
Lemma standardize_roundtrip_supplied (X : MatrixLike2d) (m s : list R) :
  wf_matrix (matrix_of X) ->
  length m = n_cols (matrix_of X) -> length s = n_cols (matrix_of X) ->
  Forall (fun x => x <> 0) s ->
  (Z <- standardize_X X (Some m) (Some s) ;; inverse_standardize_X Z m s)
    = Ok X.
Proof.
  intros Hwf Hm Hs Hnz.
  rewrite standardize_X_same_length by assumption. cbn [bind].
  rewrite inverse_standardize_X_same_length
    by (rewrite matrix_of_like; cbn [n_cols]; assumption).
  rewrite matrix_of_like, like_like. cbn [n_cols rows_of]. f_equal.
  assert (E : mkMatrix (n_cols (matrix_of X))
                (map (fun r => zip_with Rplus (zip_with Rmult r s) m)
                   (map (fun r => zip_with Rdiv (zip_with Rminus r m) s)
                      (rows_of (matrix_of X))))
              = matrix_of X).
  { destruct (matrix_of X) as [c rows]. cbn [n_cols rows_of] in *. f_equal.
    rewrite map_map.
    transitivity (map (fun r : list R => r) rows); [|apply map_id].
    apply map_ext_in. intros r Hr.
    apply standardize_row_roundtrip; auto; try congruence.
    unfold wf_matrix in Hwf. rewrite Forall_forall in Hwf.
    rewrite (Hwf r Hr). cbn [n_cols]. congruence. }
  rewrite E. apply like_matrix_of.
Qed.

(** C5 (as amended): for an array or a tensor [X] whose columns all have a
    non-zero standard deviation, the inverse standardisation of
    [standardize_X X], taken with the column means and the column standard
    deviations of [X], is [X]: where the standard deviations are those that
    [X.std(axis = 0)] gives, the population values for an array and the
    sample values for a tensor, which then has more than one row. *)
Theorem standardize_roundtrip (X : MatrixLike2d) :
  wf_matrix (matrix_of X) ->
  std_defined X ->
  Forall (fun s => s <> 0) (std0 X) ->
  (Z <- standardize_X X None None ;;
   inverse_standardize_X Z (mean0 X) (std0 X))
    = Ok X.
Proof.
  intros Hwf _ Hnz. rewrite standardize_X_omitted_statistics.
  apply standardize_roundtrip_supplied; auto using mean0_length, std0_length.
Qed.

Lemma mean_1_3 : mean [1; 3] = 2.
Proof. unfold mean, sum; simpl; lra. Qed.

Lemma std_1_3 : std [1; 3] = 1.
Proof.
  unfold std. rewrite mean_1_3. cbn [map].
  rewrite <- !Rsqr_abs.
  replace (mean [Rsqr (1 - 2); Rsqr (3 - 2)]) with 1
    by (unfold mean, sum, Rsqr; simpl; lra).
  exact sqrt_1.
Qed.

Lemma torch_std_1_3 : torch_std [1; 3] = sqrt 2.
Proof.
  unfold torch_std. rewrite mean_1_3. f_equal.
  unfold sum, Rsqr; simpl; lra.
Qed.

Lemma sqrt_2_gt_1 : 1 < sqrt 2.
Proof. rewrite <- sqrt_1 at 1. apply sqrt_lt_1; lra. Qed.

Lemma standardize_roundtrip_witness :
  let X := mkMatrix 1 [[1]; [3]] in
  (wf_matrix (matrix_of (NdArray X)) /\ std_defined (NdArray X) /\
   Forall (fun s => s <> 0) (std0 (NdArray X)) /\
   (Z <- standardize_X (NdArray X) None None ;;
    inverse_standardize_X Z (mean0 (NdArray X)) (std0 (NdArray X)))
     = Ok (NdArray X)) /\
  (wf_matrix (matrix_of (Tensor X)) /\ std_defined (Tensor X) /\
   Forall (fun s => s <> 0) (std0 (Tensor X)) /\
   (Z <- standardize_X (Tensor X) None None ;;
    inverse_standardize_X Z (mean0 (Tensor X)) (std0 (Tensor X)))
     = Ok (Tensor X)).
Proof.
  assert (Hwf : wf_matrix (mkMatrix 1 [[1]; [3]]))
    by (repeat constructor).
  assert (Hnp : Forall (fun s => s <> 0) (std0 (NdArray (mkMatrix 1 [[1]; [3]])))).
  { unfold std0, np_std0, column. cbn [n_cols rows_of seq map nth].
    rewrite std_1_3. repeat constructor. lra. }
  assert (Hto : Forall (fun s => s <> 0) (std0 (Tensor (mkMatrix 1 [[1]; [3]])))).
  { unfold std0, torch_std0, column. cbn [n_cols rows_of seq map nth].
    rewrite torch_std_1_3. repeat constructor.
    pose proof sqrt_2_gt_1. lra. }
  assert (Hd : std_defined (Tensor (mkMatrix 1 [[1]; [3]])))
    by (cbn; discriminate).
  cbv zeta. split.
  - split; [exact Hwf|]. split; [exact I|]. split; [exact Hnp|].
    exact (standardize_roundtrip (NdArray (mkMatrix 1 [[1]; [3]])) Hwf I Hnp).
  - split; [exact Hwf|]. split; [exact Hd|]. split; [exact Hto|].
    exact (standardize_roundtrip (Tensor (mkMatrix 1 [[1]; [3]])) Hwf Hd Hto).
Defined.

(** C5 (as stated) fails on a tensor: the population standard deviation of
    the column [1, 3] is 1, not zero, but [standardize_X] divides a tensor
    by the sample standard deviation, the square root of 2, and going back
    with the population value does not give the tensor again. *)
Lemma standardize_roundtrip_population_fails :
  let X := mkMatrix 1 [[1]; [3]] in
  ~ (Forall (fun s => s <> 0) (np_std0 X) ->
     (Z <- standardize_X (Tensor X) None None ;;
      inverse_standardize_X Z (np_mean0 X) (np_std0 X))
       = Ok (Tensor X)).
Proof.
  cbv zeta. intros H.
  assert (Hnz : Forall (fun s => s <> 0) (np_std0 (mkMatrix 1 [[1]; [3]]))).
  { unfold np_std0, column. cbn [n_cols rows_of seq map nth].
    rewrite std_1_3. repeat constructor. lra. }
  specialize (H Hnz). revert H.
  rewrite standardize_X_omitted_statistics,
    standardize_X_same_length by reflexivity.
  cbn [bind like matrix_of n_cols rows_of map].
  rewrite inverse_standardize_X_same_length by reflexivity.
  unfold mean0, std0, np_mean0, np_std0, torch_std0, column.
  cbn [like matrix_of n_cols rows_of seq map nth zip_with].
  rewrite mean_1_3, std_1_3, torch_std_1_3.
  intros H. injection H as H _.
  pose proof sqrt_2_gt_1 as Hs.
  assert (E : (1 - 2) / sqrt 2 * 1 + 2 = 2 - / sqrt 2) by (field; lra).
  rewrite E in H.
  assert (Hi : / sqrt 2 < 1).
  { rewrite <- Rinv_1. apply Rinv_lt_contravar; lra. }
  lra.
Qed.

(** On an array the code agrees with the specification when both statistics
    are omitted or both supplied. *)
Lemma standardize_X_both_omitted (X : Matrix) :
  standardize_X (NdArray X) None None
    = (Z <- standardize_X_as_specified X None None ;; Ok (NdArray Z)).
Proof.
  unfold standardize_X, standardize_X_as_specified, mean0.
  cbn [std0 matrix_of broadcast].
  destruct (broadcast_rows Rminus X (np_mean0 X)) as [D|e];
    cbn [bind broadcast]; [|reflexivity].
  now destruct (broadcast_rows Rdiv D (np_std0 X)).
Qed.

Lemma standardize_X_both_supplied (X : Matrix) (m s : list R) :
  standardize_X (NdArray X) (Some m) (Some s)
    = (Z <- standardize_X_as_specified X (Some m) (Some s) ;; Ok (NdArray Z)).
Proof.
  unfold standardize_X, standardize_X_as_specified. cbn [broadcast].
  destruct (broadcast_rows Rminus X m) as [D|e]; cbn [bind broadcast];
    [|reflexivity].
  now destruct (broadcast_rows Rdiv D s).
Qed.

(** A supplied standard deviation is overwritten when the mean is omitted. *)
Lemma standardize_X_ignores_supplied_std (X : MatrixLike2d) (s : list R) :
  standardize_X X None (Some s) = standardize_X X None None.
Proof. reflexivity. Qed.

(** C6 (the code at the failing input): with the mean supplied and the
    standard deviation omitted, [standardize_X] does not compute the
    standard deviation; it divides by [None] and fails with a type error,
    on an array as on a tensor, where the transform as specified returns a
    matrix. *)
Theorem standardize_X_mean_without_std :
  let X := mkMatrix 1 [[1]; [2]; [3]] in
  standardize_X (NdArray X) (Some [2]) None = Raise TypeError /\
  standardize_X (Tensor X) (Some [2]) None = Raise TypeError /\
  standardize_X_as_specified X (Some [2]) None
    = Ok (mkMatrix 1 [[(1 - 2) / std [1; 2; 3]];
                      [(2 - 2) / std [1; 2; 3]];
                      [(3 - 2) / std [1; 2; 3]]]).
Proof.
  split; [|split]; reflexivity.
Qed.

(** ** The 2-D mesh *)

Lemma nth_map_seq (F : nat -> R) (n k : nat) :
  (k < n)%nat -> nth k (map F (seq 0 n)) 0 = F k.
Proof.
  intros H. rewrite (nth_indep _ 0 (F 0%nat)) by (now rewrite length_map, length_seq).
  rewrite (map_nth F (seq 0 n) 0%nat k). now rewrite seq_nth.
Qed.

Lemma grid_point_bounds (n k : nat) : (k < n)%nat -> 0 <= grid_point n k <= 1.
Proof.
  intros Hk. unfold grid_point.
  destruct (Nat.leb_spec n 1) as [_|Hn]; [lra|].
  assert (Hpos : 0 < INR (n - 1)) by (apply lt_0_INR; lia).
  assert (Hle : INR k <= INR (n - 1)) by (apply le_INR; lia).
  assert (H0 : 0 <= INR k) by apply pos_INR.
  split.
  - apply Rmult_le_pos; auto. left. now apply Rinv_0_lt_compat.
  - apply (Rmult_le_reg_r (INR (n - 1))); auto.
    unfold Rdiv. rewrite Rmult_assoc, Rinv_l by lra. lra.
Qed.

(** [np.linspace(0, 1, n)] holds the [n] grid points. *)
Lemma np_linspace_unit (n : nat) :
  (1 <= n)%nat ->
  exists xs, np_linspace 0 1 (Z.of_nat n) = Ok xs /\ length xs = n /\
             forall k, (k < n)%nat -> nth k xs 0 = grid_point n k.
Proof.
  intros Hn. unfold np_linspace.
  destruct (Z.ltb_spec (Z.of_nat n) 0) as [Hneg|_]; [lia|].
  rewrite Nat2Z.id.
  destruct (Z.ltb_spec 0 (Z.of_nat n - 1)) as [Hdiv|Hdiv].
  - (* at least two samples *)
    destruct (Z.ltb_spec 1 (Z.of_nat n)) as [_|]; [|lia].
    assert (Hn2 : (2 <= n)%nat) by lia.
    assert (HIZ : IZR (Z.of_nat n - 1) = INR (n - 1)).
    { rewrite INR_IZR_INZ. f_equal. lia. }
    assert (Hpos : 0 < INR (n - 1)) by (apply lt_0_INR; lia).
    rewrite HIZ.
    set (ys := map (fun k => k + 0)
                 (if Req_dec_T ((1 - 0) / INR (n - 1)) 0
                  then map (fun k => k / INR (n - 1) * (1 - 0)) (map INR (seq 0 n))
                  else map (fun k => k * ((1 - 0) / INR (n - 1))) (map INR (seq 0 n)))).
    assert (Hys : ys = map (fun k => INR k / INR (n - 1)) (seq 0 n)).
    { unfold ys. destruct (Req_dec_T ((1 - 0) / INR (n - 1)) 0);
        rewrite !map_map; apply map_ext; intros k; field; lra. }
    assert (Hlen : length ys = n) by (now rewrite Hys, length_map, length_seq).
    eexists; split; [reflexivity|]. split.
    + now rewrite list_set_length.
    + intros k Hk. unfold grid_point.
      destruct (Nat.leb_spec n 1); [lia|].
      destruct (Nat.eq_dec k (n - 1)) as [->|Hne].
      * rewrite list_set_same by lia. field. lra.
      * rewrite list_set_other by auto. rewrite Hys. now apply nth_map_seq.
  - (* a single sample *)
    assert (n = 1)%nat by lia; subst n.
    destruct (Z.ltb_spec 1 (Z.of_nat 1)) as [|_]; [lia|].
    eexists; split; [reflexivity|]. split; [reflexivity|].
    intros k Hk. assert (k = 0)%nat by lia; subst k.
    unfold grid_point; simpl. lra.
Qed.

Lemma meshgrid_index (xs : list R) (i j : nat) :
  (i < length xs)%nat -> (j < length xs)%nat ->
  index2 (fst (np_meshgrid_xy xs xs)) i j = Ok (nth j xs 0) /\
  index2 (snd (np_meshgrid_xy xs xs)) i j = Ok (nth i xs 0).
Proof.
  intros Hi Hj. unfold index2, np_meshgrid_xy; cbn [fst snd rows_of].
  split.
  - rewrite (index_ok _ i xs).
    + cbn [bind]. apply index_ok. now apply nth_error_nth'.
    + rewrite nth_error_map, (nth_error_nth' xs 0 Hi). reflexivity.
  - rewrite (index_ok _ i (repeat (nth i xs 0) (length xs))).
    + cbn [bind]. apply index_ok. now apply nth_error_repeat_lt.
    + rewrite nth_error_map, (nth_error_nth' xs 0 Hi). reflexivity.
Qed.

Lemma mesh_inner_loop (X1 X2 : Matrix) (i : nat) (pa pb : nat -> R)
    (l : list nat) :
  (forall j, In j l ->
     index2 X1 i j = Ok (pa j) /\ index2 X2 i j = Ok (pb j)) ->
  forall acc,
    for_each l acc
      (fun j X_test =>
         a <- index2 X1 i j ;; b <- index2 X2 i j ;; Ok (X_test ++ [[a; b]]))
    = Ok (acc ++ map (fun j => [pa j; pb j]) l).
Proof.
  induction l as [|j l IH]; intros H acc; cbn [for_each map].
  - now rewrite app_nil_r.
  - destruct (H j (or_introl eq_refl)) as [-> ->]. cbn [bind].
    rewrite IH by (intros; apply H; now right).
    now rewrite <- app_assoc.
Qed.

Lemma mesh_outer_loop (X1 X2 : Matrix) (pa pb : nat -> nat -> R)
    (l1 l2 : list nat) :
  (forall i j, In i l1 -> In j l2 ->
     index2 X1 i j = Ok (pa i j) /\ index2 X2 i j = Ok (pb i j)) ->
  forall acc,
    for_each l1 acc
      (fun i X_test =>
         for_each l2 X_test
           (fun j X_test =>
              a <- index2 X1 i j ;; b <- index2 X2 i j ;;
              Ok (X_test ++ [[a; b]])))
    = Ok (acc ++ flat_map (fun i => map (fun j => [pa i j; pb i j]) l2) l1).
Proof.
  induction l1 as [|i l1 IH]; intros H acc; cbn [for_each flat_map].
  - now rewrite app_nil_r.
  - rewrite (mesh_inner_loop X1 X2 i (pa i) (pb i))
      by (intros; apply H; [now left | assumption]).
    cbn [bind]. rewrite IH by (intros; apply H; [now right | assumption]).
    now rewrite <- app_assoc.
Qed.

Lemma flat_map_blocks {A : Type} (F : nat -> nat -> A) (n m : nat) :
  forall start i j, (i < m)%nat -> (j < n)%nat ->
    nth_error (flat_map (fun i => map (F i) (seq 0 n)) (seq start m))
      (i * n + j) = Some (F (start + i)%nat j).
Proof.
  induction m as [|m IH]; intros start i j Hi Hj; [lia|].
  cbn [seq flat_map]. destruct i as [|i].
  - cbn [Nat.mul Nat.add]. rewrite nth_error_app1
      by (now rewrite length_map, length_seq).
    rewrite Nat.add_0_r. now apply nth_error_map_seq.
  - rewrite nth_error_app2 by (rewrite length_map, length_seq; simpl; lia).
    rewrite length_map, length_seq.
    replace (S i * n + j - n)%nat with (i * n + j)%nat by (simpl; lia).
    rewrite IH by lia. f_equal. f_equal. lia.
Qed.

Lemma flat_map_blocks_length {A : Type} (F : nat -> nat -> A) (n : nat)
    (l : list nat) :
  length (flat_map (fun i => map (F i) (seq 0 n)) l) = (length l * n)%nat.
Proof.
  induction l as [|i l IH]; cbn [flat_map length]; auto.
  rewrite length_app, length_map, length_seq, IH. simpl. lia.
Qed.

(** What [create_2D_mesh] returns for a mesh size of at least one. *)
Lemma create_2D_mesh_result (n : nat) :
  (1 <= n)%nat ->
  exists rows X1 X2,
    create_2D_mesh (Z.of_nat n) = Ok (Arr2 (mkMatrix 2 rows), X1, X2) /\
    length rows = (n * n)%nat /\
    forall i j, (i < n)%nat -> (j < n)%nat ->
      nth_error rows (i * n + j) = Some [grid_point n j; grid_point n i].
Proof.
  intros Hn. destruct (np_linspace_unit n Hn) as (xs & Hxs & Hlen & Hnth).
  unfold create_2D_mesh. cbv zeta. rewrite Hxs. cbn [bind].
  destruct (np_meshgrid_xy xs xs) as [X1 X2] eqn:Hmesh.
  unfold range. rewrite Nat2Z.id.
  rewrite (mesh_outer_loop X1 X2 (fun i j => grid_point n j)
             (fun i j => grid_point n i)).
  - cbn [bind app].
    set (rows := flat_map
                   (fun i => map (fun j => [grid_point n j; grid_point n i])
                               (seq 0 n)) (seq 0 n)).
    assert (Hrows : length rows = (n * n)%nat).
    { unfold rows.
      rewrite (flat_map_blocks_length
                 (fun i j => [grid_point n j; grid_point n i])).
      now rewrite length_seq. }
    exists rows, X1, X2. split; [|split; auto].
    + destruct rows as [|r rows']; [simpl in Hrows; nia|reflexivity].
    + intros i j Hi Hj. unfold rows.
      now rewrite (flat_map_blocks
                     (fun i j => [grid_point n j; grid_point n i]) n n 0 i j).
  - intros i j Hi Hj. apply in_seq in Hi, Hj.
    destruct (meshgrid_index xs i j) as [H1 H2]; try lia.
    rewrite Hmesh in H1, H2. cbn [fst snd] in H1, H2.
    rewrite H1, H2, !Hnth by lia. split; reflexivity.
Qed.

(** C7 (as amended): for a mesh size [n >= 1], [create_2D_mesh] returns
    exactly [n * n] coordinate pairs; the pair at place [i * n + j] is
    (grid point [j], grid point [i]), so the first coordinate runs through
    the [n] evenly spaced values in the inner loop and the second coordinate
    moves on in the outer loop; both coordinates lie in [0, 1]. *)
Theorem create_2D_mesh_pairs (n : nat) :
  (1 <= n)%nat ->
  exists rows X1 X2,
    create_2D_mesh (Z.of_nat n) = Ok (Arr2 (mkMatrix 2 rows), X1, X2) /\
    length rows = (n * n)%nat /\
    forall i j, (i < n)%nat -> (j < n)%nat ->
      nth_error rows (i * n + j) = Some [grid_point n j; grid_point n i] /\
      0 <= grid_point n j <= 1 /\ 0 <= grid_point n i <= 1.
Proof.
  intros Hn. destruct (create_2D_mesh_result n Hn) as (rows & X1 & X2 & H & Hl & Hp).
  exists rows, X1, X2. repeat split; auto using grid_point_bounds;
    try apply grid_point_bounds; auto.
Qed.

Lemma create_2D_mesh_pairs_witness :
  (1 <= 2)%nat /\
  exists rows X1 X2,
    create_2D_mesh (Z.of_nat 2) = Ok (Arr2 (mkMatrix 2 rows), X1, X2) /\
    length rows = (2 * 2)%nat /\
    forall i j, (i < 2)%nat -> (j < 2)%nat ->
      nth_error rows (i * 2 + j) = Some [grid_point 2 j; grid_point 2 i] /\
      0 <= grid_point 2 j <= 1 /\ 0 <= grid_point 2 i <= 1.
Proof.
  split; [lia|]. apply (create_2D_mesh_pairs 2). lia.
Defined.

(** C7 (as stated) fails for [n = 2]: the pairs are not listed with the
    first coordinate in the outer loop and the second in the inner loop;
    the second pair is (1, 0), not (0, 1). *)
Lemma create_2D_mesh_outer_x1_fails :
  ~ (exists rows X1 X2,
       create_2D_mesh (Z.of_nat 2) = Ok (Arr2 (mkMatrix 2 rows), X1, X2) /\
       length rows = (2 * 2)%nat /\
       forall i j, (i < 2)%nat -> (j < 2)%nat ->
         nth_error rows (i * 2 + j) = Some [grid_point 2 i; grid_point 2 j] /\
         0 <= grid_point 2 i <= 1 /\ 0 <= grid_point 2 j <= 1).
Proof.
  intros (rows & X1 & X2 & H & _ & Hp).
  destruct (create_2D_mesh_result 2) as (rows' & X1' & X2' & H' & _ & Hp'); [lia|].
  rewrite H' in H. injection H as <- _ _.
  destruct (Hp 0%nat 1%nat) as [E _]; [lia|lia|].
  rewrite (Hp' 0%nat 1%nat) in E by lia.
  injection E as E _. unfold grid_point in E. simpl in E. lra.
Qed.

(** ** The store: what a call leaves untouched *)

Section Frame.

Context {rnd : Around}.

Import Store.

Variable n : nat.

Lemma heap_set_length (h : heap) (r : ref) (o : pyobj) :
  length (heap_set h r o) = length h.
Proof.
  revert r; induction h as [|x h IH]; intros [|r]; simpl; auto.
Qed.

Lemma heap_set_firstn (h : heap) (r : ref) (o : pyobj) (k : nat) :
  (k <= r)%nat -> firstn k (heap_set h r o) = firstn k h.
Proof.
  revert r k; induction h as [|x h IH]; intros [|r] [|k] H; simpl; auto;
    try lia.
  f_equal. apply IH. lia.
Qed.

Lemma preserves_weaken {A : Type} (m : M A) (Q Q' : A -> Prop) :
  preserves n m Q -> (forall a, Q a -> Q' a) -> preserves n m Q'.
Proof.
  intros H HQ h Hh. destruct (H h Hh) as (H1 & H2 & H3). auto.
Qed.

Lemma preserves_ret {A : Type} (a : A) (Q : A -> Prop) :
  Q a -> preserves n (ret a) Q.
Proof.
  intros HQ h Hh. cbn. repeat split; auto. now intros a' [= <-].
Qed.

Lemma preserves_lift {A : Type} (x : result A) :
  preserves n (lift x) (fun _ => True).
Proof. intros h Hh. cbn. auto. Qed.

Lemma preserves_raise {A : Type} (e : PyError) (Q : A -> Prop) :
  preserves n (lift (Raise e)) Q.
Proof. intros h Hh. cbn. repeat split; auto. discriminate. Qed.

Lemma preserves_load (r : ref) : preserves n (load r) (fun _ => True).
Proof.
  intros h Hh. unfold load. destruct (nth_error h r); cbn; auto.
Qed.

Lemma preserves_alloc (o : pyobj) :
  preserves n (alloc o) (fun r => (n <= r)%nat).
Proof.
  intros h Hh. unfold alloc; cbn. rewrite length_app. cbn.
  repeat split; try lia.
  - rewrite firstn_app. replace (n - length h)%nat with 0%nat by lia.
    cbn. apply app_nil_r.
  - intros a [= <-]. assumption.
Qed.

(** Only objects made after the first [n] may be overwritten. *)
Lemma preserves_write (r : ref) (o : pyobj) :
  (n <= r)%nat -> preserves n (write r o) (fun _ => True).
Proof.
  intros Hr h Hh. unfold write.
  destruct (r <? length h)%nat; cbn; auto.
  rewrite heap_set_length, heap_set_firstn by assumption. auto.
Qed.

Lemma preserves_bind {A B : Type} (m : M A) (k : A -> M B)
    (Q : A -> Prop) (Q' : B -> Prop) :
  preserves n m Q -> (forall a, Q a -> preserves n (k a) Q') ->
  preserves n (bindM m k) Q'.
Proof.
  intros Hm Hk h Hh. unfold bindM.
  destruct (Hm h Hh) as (H1 & H2 & H3).
  destruct (m h) as [[a|e] h1]; cbn [fst snd] in *.
  - destruct (Hk a (H3 a eq_refl) h1) as (K1 & K2 & K3); [lia|].
    repeat split; auto; try congruence; lia.
  - repeat split; auto. discriminate.
Qed.

Create HintDb frame discriminated.

Ltac frame_step :=
  lazymatch goal with
  | |- preserves _ (lift (Raise _)) _ => apply preserves_raise
  | |- preserves _ (lift _) _ => apply preserves_lift
  | |- preserves _ (load _) _ => apply preserves_load
  | |- preserves _ (alloc _) _ =>
      first [ apply preserves_alloc
            | eapply preserves_weaken; [apply preserves_alloc | auto] ]
  | |- preserves _ (ret _) _ =>
      first [ apply preserves_ret; solve [auto | lia]
            | apply preserves_ret with (Q := fun _ => True); exact I ]
  | |- preserves _ (write _ _) _ => apply preserves_write; lia
  | |- preserves _ (bindM _ _) _ => eapply preserves_bind; [ | intros ? ? ]
  | |- preserves _ (match ?x with _ => _ end) _ => destruct x
  | |- preserves _ _ _ =>
      first [ solve [eauto with frame nocore]
            | eapply preserves_weaken;
              [solve [eauto with frame nocore] | auto] ]
  end.

Ltac frame := repeat frame_step.

Lemma preserves_read_matrix (r : ref) :
  preserves n (read_matrix r) (fun _ => True).
Proof. unfold read_matrix. frame. Qed.
Hint Resolve preserves_read_matrix : frame.

Lemma preserves_read_matrixlike (r : ref) :
  preserves n (read_matrixlike r) (fun _ => True).
Proof. unfold read_matrixlike. frame. Qed.
Hint Resolve preserves_read_matrixlike : frame.

Lemma preserves_read_vector (r : ref) :
  preserves n (read_vector r) (fun _ => True).
Proof. unfold read_vector. frame. Qed.
Hint Resolve preserves_read_vector : frame.

Lemma preserves_read_bools (r : ref) :
  preserves n (read_bools r) (fun _ => True).
Proof. unfold read_bools. frame. Qed.
Hint Resolve preserves_read_bools : frame.

Lemma preserves_read_rows (l : list ref) :
  preserves n (read_rows l) (fun _ => True).
Proof. induction l as [|r l IH]; cbn [read_rows]; frame. Qed.
Hint Resolve preserves_read_rows : frame.

Lemma preserves_deepcopy (r : ref) :
  preserves n (deepcopy r) (fun c => (n <= c)%nat).
Proof. unfold deepcopy. frame. Qed.
Hint Resolve preserves_deepcopy : frame.

Lemma preserves_for_each {A : Type} (l : list A) (body : A -> M unit) :
  (forall a, preserves n (body a) (fun _ => True)) ->
  preserves n (for_each_st l body) (fun _ => True).
Proof.
  intros Hb. induction l as [|a l IH]; cbn [for_each_st]; frame.
Qed.

Lemma preserves_unitscale_xv (xv rg : ref) :
  preserves n (unitscale_xv xv rg) (fun r => (n <= r)%nat).
Proof. unfold unitscale_xv. frame. Qed.
Hint Resolve preserves_unitscale_xv : frame.

Lemma preserves_inverse_unitscale_xv (xv rg : ref) :
  preserves n (inverse_unitscale_xv xv rg) (fun r => (n <= r)%nat).
Proof. unfold inverse_unitscale_xv. frame. Qed.
Hint Resolve preserves_inverse_unitscale_xv : frame.

Lemma preserves_promote_2d (X : ref) :
  preserves n (promote_2d X) (fun _ => True).
Proof. unfold promote_2d. frame. Qed.
Hint Resolve preserves_promote_2d : frame.

Lemma preserves_ranges_by_column (X_range : ref) (dim : nat) :
  preserves n (ranges_by_column X_range dim) (fun _ => True).
Proof.
  unfold ranges_by_column. frame.
Qed.
Hint Resolve preserves_ranges_by_column : frame.

Lemma preserves_flags_by_column (log_flags : ref) (dim : nat) :
  preserves n (flags_by_column log_flags dim) (fun _ => True).
Proof.
  unfold flags_by_column. frame.
Qed.
Hint Resolve preserves_flags_by_column : frame.

Lemma preserves_getitem (X_range : ref) (i : nat) :
  preserves n (getitem X_range i) (fun _ => True).
Proof.
  unfold getitem. frame.
Qed.
Hint Resolve preserves_getitem : frame.

Lemma preserves_set_column (target : ref) (i : nat) (v : ref) :
  (n <= target)%nat ->
  preserves n (Store.set_column target i v) (fun _ => True).
Proof. intros H. unfold Store.set_column. frame. Qed.

Lemma preserves_map_array (f : R -> R) (u : ref) :
  preserves n (map_array f u) (fun r => (n <= r)%nat).
Proof. unfold map_array. frame. Qed.
Hint Resolve preserves_map_array : frame.

Lemma preserves_round_if (decimals : option Z) (X : ref) :
  (n <= X)%nat ->
  preserves n (Store.round_if decimals X) (fun r => (n <= r)%nat).
Proof. intros H. unfold Store.round_if. frame. Qed.

Lemma preserves_unitscale_X (X X_range log_flags : ref) (decimals : option Z) :
  preserves n (Store.unitscale_X X X_range log_flags decimals)
    (fun r => (n <= r)%nat).
Proof.
  unfold Store.unitscale_X. frame.
  - apply preserves_for_each. intros i. frame;
      apply preserves_set_column; assumption.
  - apply preserves_round_if. assumption.
Qed.

Lemma preserves_inverse_unitscale_X (X X_range log_flags : ref)
    (decimals : option Z) :
  preserves n (Store.inverse_unitscale_X X X_range log_flags decimals)
    (fun r => (n <= r)%nat).
Proof.
  unfold Store.inverse_unitscale_X. frame.
  - apply preserves_for_each. intros i. frame;
      apply preserves_set_column; assumption.
  - apply preserves_round_if. assumption.
Qed.

Lemma preserves_standardize_X (X : ref) (X_mean X_std : option ref) :
  preserves n (Store.standardize_X X X_mean X_std) (fun r => (n <= r)%nat).
Proof. unfold Store.standardize_X. frame. Qed.

Lemma preserves_inverse_standardize_X (X X_mean X_std : ref) :
  preserves n (Store.inverse_standardize_X X X_mean X_std)
    (fun r => (n <= r)%nat).
Proof. unfold Store.inverse_standardize_X. frame. Qed.

End Frame.

Lemma preserves_pure_call (m : Store.M Store.ref) :
  (forall n, Store.preserves n m (fun r => (n <= r)%nat)) -> Store.pure_call m.
Proof.
  intros H h. destruct (H (length h) h (Nat.le_refl _)) as (Hf & Hl & Hq).
  split.
  - intros r o Hr. rewrite firstn_all in Hf.
    rewrite <- Hf in Hr. rewrite nth_error_firstn in Hr.
    destruct (r <? length h)%nat; [assumption | discriminate].
  - intros r Hr. now apply Hq.
Qed.

(** C9: each of the six transforms, run from any store, changes no object
    that was in the store before the call (its arguments included) and
    returns a reference to an object made during the call. *)
Theorem transforms_leave_inputs_unchanged {rnd : Around} :
  (forall xv xi_range, Store.pure_call (Store.unitscale_xv xv xi_range)) /\
  (forall X X_range log_flags decimals,
     Store.pure_call (Store.unitscale_X X X_range log_flags decimals)) /\
  (forall xv xi_range, Store.pure_call (Store.inverse_unitscale_xv xv xi_range)) /\
  (forall X X_range log_flags decimals,
     Store.pure_call (Store.inverse_unitscale_X X X_range log_flags decimals)) /\
  (forall X X_mean X_std, Store.pure_call (Store.standardize_X X X_mean X_std)) /\
  (forall X X_mean X_std,
     Store.pure_call (Store.inverse_standardize_X X X_mean X_std)).
Proof.
  split; [|split; [|split; [|split; [|split]]]]; intros;
    apply preserves_pure_call; intros n.
  - apply preserves_unitscale_xv.
  - apply preserves_unitscale_X.
  - apply preserves_inverse_unitscale_xv.
  - apply preserves_inverse_unitscale_X.
  - apply preserves_standardize_X.
  - apply preserves_inverse_standardize_X.
Qed.

(** ** The store: the runs compute what the value-level functions do *)

Section Simulation.

Context {rnd : Around}.

Lemma lookup_app_l (h ext : Store.heap) (r : Store.ref) (o : Store.pyobj) :
  nth_error h r = Some o -> nth_error (h ++ ext) r = Some o.
Proof.
  intros H. rewrite nth_error_app1; auto.
  apply nth_error_Some. congruence.
Qed.

Lemma lookup_app_new (h ext : Store.heap) (o : Store.pyobj) :
  nth_error (h ++ o :: ext) (length h) = Some o.
Proof. rewrite nth_error_app2, Nat.sub_diag by lia. reflexivity. Qed.

Lemma load_at (h : Store.heap) (r : Store.ref) (o : Store.pyobj) :
  nth_error h r = Some o -> Store.load r h = (Ok o, h).
Proof. unfold Store.load. now intros ->. Qed.

Lemma read_matrix_at (h : Store.heap) (r : Store.ref) (m : Matrix) :
  nth_error h r = Some (Store.ONdarray (Arr2 m)) -> Store.read_matrix r h = (Ok m, h).
Proof. intros H. unfold Store.read_matrix, Store.bindM. now rewrite (load_at _ _ _ H). Qed.

Lemma read_vector_at (h : Store.heap) (r : Store.ref) (v : list R) :
  Store.vector_at h r v -> Store.read_vector r h = (Ok v, h).
Proof.
  intros [H|[H|[H|(b & j & m & H & Hb & ->)]]]; unfold Store.read_vector, Store.bindM;
    rewrite (load_at _ _ _ H); auto.
  now rewrite (read_matrix_at _ _ _ Hb).
Qed.

Lemma read_bools_at (h : Store.heap) (r : Store.ref) (l : list bool) :
  nth_error h r = Some (Store.OBools l) -> Store.read_bools r h = (Ok l, h).
Proof. intros H. unfold Store.read_bools, Store.bindM. now rewrite (load_at _ _ _ H). Qed.

Lemma vector_at_app (h ext : Store.heap) (r : Store.ref) (v : list R) :
  Store.vector_at h r v -> Store.vector_at (h ++ ext) r v.
Proof.
  intros [H|[H|[H|(b & j & m & H & Hb & ->)]]].
  - left. now apply lookup_app_l.
  - right; left. now apply lookup_app_l.
  - right; right; left. now apply lookup_app_l.
  - right; right; right. exists b, j, m. auto using lookup_app_l.
Qed.

Lemma deepcopy_vector (h : Store.heap) (r : Store.ref) (v : list R) :
  Store.vector_at h r v ->
  exists o, Store.deepcopy r h = (Ok (length h), h ++ [o]).
Proof.
  intros Hv. pose proof (read_vector_at _ _ _ Hv) as Hr.
  destruct Hv as [H|[H|[H|(b & j & m & H & Hb & ->)]]]; unfold Store.deepcopy, Store.bindM;
    rewrite (load_at _ _ _ H); try (eexists; reflexivity).
  rewrite Hr. eexists; reflexivity.
Qed.

Lemma bindM_ok {A B : Type} (m : Store.M A) (k : A -> Store.M B)
    (h h' : Store.heap) (a : A) :
  m h = (Ok a, h') -> Store.bindM m k h = k a h'.
Proof. unfold Store.bindM. now intros ->. Qed.

Lemma bindM_lift {A B : Type} (x : result A) (k : A -> Store.M B)
    (h : Store.heap) :
  Store.bindM (Store.lift x) k h =
    match x with Ok a => k a h | Raise e => (Raise e, h) end.
Proof. unfold Store.bindM, Store.lift. now destruct x. Qed.

Lemma bindM_alloc {B : Type} (o : Store.pyobj) (k : Store.ref -> Store.M B)
    (h : Store.heap) :
  Store.bindM (Store.alloc o) k h = k (length h) (h ++ [o]).
Proof. reflexivity. Qed.

Lemma bindM_ret {A B : Type} (a : A) (k : A -> Store.M B) (h : Store.heap) :
  Store.bindM (Store.ret a) k h = k a h.
Proof. reflexivity. Qed.

Ltac heap_norm := rewrite <- ?app_assoc; cbn [app].

Lemma unchanged_refl (h : Store.heap) : Store.unchanged h h.
Proof. intros r o H. exact H. Qed.

Lemma unchanged_trans (h1 h2 h3 : Store.heap) :
  Store.unchanged h1 h2 -> Store.unchanged h2 h3 -> Store.unchanged h1 h3.
Proof. intros H1 H2 r o H. auto. Qed.

Lemma unchanged_app (h ext : Store.heap) : Store.unchanged h (h ++ ext).
Proof. intros r o H. now apply lookup_app_l. Qed.

Lemma run_done {A : Type} (wrap : A -> Store.pyobj) (value : result A)
    (h ext : Store.heap) (res : result Store.ref) :
  Store.agrees wrap value (res, h ++ ext) ->
  Store.unchanged h (snd (res, h ++ ext)) /\
  Store.agrees wrap value (res, h ++ ext).
Proof. intros H. split; auto. apply unchanged_app. Qed.

(** The vector transforms over the store against those over values. *)
Lemma unitscale_xv_run (h : Store.heap) (xv rgr : Store.ref) (x rg : list R) :
  Store.vector_at h xv x -> Store.vector_at h rgr rg ->
  Store.simulates (fun u => Store.ONdarray (Arr1 u)) (unitscale_xv x rg)
    (Store.unitscale_xv xv rgr) h.
Proof.
  intros Hx Hrg. unfold Store.simulates, Store.unitscale_xv, unitscale_xv.
  destruct (deepcopy_vector h xv x Hx) as (o & Hc).
  rewrite (bindM_ok _ _ _ _ _ Hc).
  rewrite (bindM_ok _ _ _ _ _
             (read_vector_at _ _ _ (vector_at_app h [o] _ _ Hrg))).
  rewrite bindM_lift.
  destruct (index rg 0) as [lb|e]; cbn [bind];
    [|now apply run_done].
  rewrite bindM_lift.
  destruct (index rg 1) as [rb|e]; cbn [bind];
    [|now apply run_done].
  rewrite (bindM_ok _ _ _ _ _
             (read_vector_at _ _ _ (vector_at_app h [o] _ _ Hx))).
  rewrite bindM_alloc.
  set (h1 := h ++ [o]).
  set (o2 := Store.ONdarray (Arr1 (map (fun x0 => x0 - lb) x))).
  set (h2 := h1 ++ [o2]).
  assert (Hd : Store.vector_at h2 (length h1) (map (fun x0 => x0 - lb) x))
    by (left; apply (lookup_app_new h1 [] o2)).
  rewrite (bindM_ok _ _ _ _ _ (read_vector_at _ _ _ Hd)).
  unfold Store.alloc.
  set (o3 := Store.ONdarray
               (Arr1 (map (fun y => y / (rb - lb))
                        (map (fun x0 => x0 - lb) x)))).
  assert (E : h2 ++ [o3] = h ++ [o; o2; o3])
    by (unfold h2, h1; now heap_norm).
  rewrite E. apply run_done. rewrite <- E.
  exists (length h2). split; [reflexivity|]. cbn [snd].
  rewrite lookup_app_new. unfold o3. now rewrite map_map.
Qed.

Lemma inverse_unitscale_xv_run (h : Store.heap) (xv rgr : Store.ref)
    (x rg : list R) :
  Store.vector_at h xv x -> Store.vector_at h rgr rg ->
  Store.simulates (fun u => Store.ONdarray (Arr1 u))
    (inverse_unitscale_xv x rg) (Store.inverse_unitscale_xv xv rgr) h.
Proof.
  intros Hx Hrg.
  unfold Store.simulates, Store.inverse_unitscale_xv, inverse_unitscale_xv.
  destruct (deepcopy_vector h xv x Hx) as (o & Hc).
  rewrite (bindM_ok _ _ _ _ _ Hc).
  rewrite (bindM_ok _ _ _ _ _
             (read_vector_at _ _ _ (vector_at_app h [o] _ _ Hrg))).
  rewrite bindM_lift.
  destruct (index rg 0) as [lb|e]; cbn [bind];
    [|now apply run_done].
  rewrite bindM_lift.
  destruct (index rg 1) as [rb|e]; cbn [bind];
    [|now apply run_done].
  rewrite (bindM_ok _ _ _ _ _
             (read_vector_at _ _ _ (vector_at_app h [o] _ _ Hx))).
  rewrite bindM_alloc.
  set (h1 := h ++ [o]).
  set (o2 := Store.ONdarray (Arr1 (map (fun x0 => (rb - lb) * x0) x))).
  set (h2 := h1 ++ [o2]).
  assert (Hd : Store.vector_at h2 (length h1)
                 (map (fun x0 => (rb - lb) * x0) x))
    by (left; apply (lookup_app_new h1 [] o2)).
  rewrite (bindM_ok _ _ _ _ _ (read_vector_at _ _ _ Hd)).
  unfold Store.alloc.
  set (o3 := Store.ONdarray
               (Arr1 (map (fun y => lb + y)
                        (map (fun x0 => (rb - lb) * x0) x)))).
  assert (E : h2 ++ [o3] = h ++ [o; o2; o3])
    by (unfold h2, h1; now heap_norm).
  rewrite E. apply run_done. rewrite <- E.
  exists (length h2). split; [reflexivity|]. cbn [snd].
  rewrite lookup_app_new. unfold o3. now rewrite map_map.
Qed.

Ltac unch :=
  first [ assumption
        | apply unchanged_refl
        | apply unchanged_app
        | eapply unchanged_trans; [ | apply unchanged_app ]; unch ].

Lemma vector_at_unchanged (h h' : Store.heap) (r : Store.ref) (v : list R) :
  Store.unchanged h h' -> Store.vector_at h r v -> Store.vector_at h' r v.
Proof.
  intros U [H|[H|[H|(b & j & m & H & Hb & ->)]]].
  - left. auto.
  - right; left. auto.
  - right; right; left. auto.
  - right; right; right. exists b, j, m. auto.
Qed.

Lemma ranges_at_unchanged (h h' : Store.heap) (r : Store.ref)
    (ranges : list (list R)) :
  Store.unchanged h h' -> Store.ranges_at h r ranges ->
  Store.ranges_at h' r ranges.
Proof.
  intros U [(pair & dim & H1 & H2 & ->)|(a & A & H1 & H2 & ->)].
  - left. exists pair, dim. auto.
  - right. exists a, A. auto.
Qed.

Lemma bindM_raise {A B : Type} (m : Store.M A) (k : A -> Store.M B)
    (h h' : Store.heap) (e : PyError) :
  m h = (Raise e, h') -> Store.bindM m k h = (Raise e, h').
Proof. unfold Store.bindM. now intros ->. Qed.

Lemma heap_set_same (h : Store.heap) (r : Store.ref) (o : Store.pyobj) :
  (r < length h)%nat -> nth_error (Store.heap_set h r o) r = Some o.
Proof.
  revert r; induction h as [|x h IH]; intros [|r] H; simpl in *; try lia; auto.
  apply IH; lia.
Qed.

Lemma heap_set_other (h : Store.heap) (r r' : Store.ref) (o : Store.pyobj) :
  r' <> r -> nth_error (Store.heap_set h r o) r' = nth_error h r'.
Proof.
  revert r r'; induction h as [|x h IH]; intros [|r] [|r'] H; simpl; auto;
    congruence.
Qed.

Lemma lookup_lt (h : Store.heap) (r : Store.ref) (o : Store.pyobj) :
  nth_error h r = Some o -> (r < length h)%nat.
Proof. intros H. apply nth_error_Some. congruence. Qed.

(** [X_range[i]] over the store against [index] over values. *)
Lemma getitem_run (h : Store.heap) (rr : Store.ref) (ranges : list (list R))
    (i : nat) :
  Store.ranges_at h rr ranges ->
  match index ranges i with
  | Ok rg => exists r h', Store.getitem rr i h = (Ok r, h') /\
                          Store.unchanged h h' /\ Store.vector_at h' r rg
  | Raise e => Store.getitem rr i h = (Raise e, h)
  end.
Proof.
  intros [(pair & dim & H1 & H2 & ->)|(a & A & H1 & H2 & ->)];
    unfold Store.getitem; rewrite (bindM_ok _ _ _ _ _ (load_at _ _ _ H1)).
  - unfold index, Store.lift.
    destruct (Nat.ltb_spec i dim) as [Hi|Hi].
    + rewrite !nth_error_repeat_lt by assumption.
      exists pair, h. repeat split; [apply unchanged_refl|]. right; right; left; auto.
    + assert (E1 : nth_error (repeat pair dim) i = None)
        by (apply nth_error_None; now rewrite repeat_length).
      assert (E2 : nth_error (repeat [0; 1] dim) i = None)
        by (apply nth_error_None; now rewrite repeat_length).
      now rewrite E1, E2.
  - rewrite (bindM_ok _ _ _ _ _ (read_matrix_at _ _ _ H2)).
    unfold index, np_transpose; cbn [rows_of].
    destruct (Nat.ltb_spec i (n_cols A)) as [Hi|Hi].
    + rewrite (nth_error_map_seq (fun j => column j (rows_of A))) by assumption.
      exists (length h), (h ++ [Store.OView a i]).
      split; [reflexivity|]. split; [apply unchanged_app|].
      right; right; right. exists a, i, A.
      split; [apply (lookup_app_new h [])|].
      split; [now apply lookup_app_l | reflexivity].
    + assert (E : nth_error (map (fun j => column j (rows_of A))
                               (seq 0 (n_cols A))) i = None)
        by (apply nth_error_None; now rewrite length_map, length_seq).
      now rewrite E.
Qed.

(** [M[:, i] = v] over the store against [set_column] over values. *)
Lemma set_column_run (h : Store.heap) (ur w : Store.ref) (i : nat)
    (v : list R) (acc : Matrix) :
  Store.vector_at h w v ->
  nth_error h ur = Some (Store.ONdarray (Arr2 acc)) ->
  Store.set_column ur i w h =
    match set_column acc i v with
    | Ok acc' => (Ok tt, Store.heap_set h ur (Store.ONdarray (Arr2 acc')))
    | Raise e => (Raise e, h)
    end.
Proof.
  intros Hw Hacc. unfold Store.set_column.
  rewrite (bindM_ok _ _ _ _ _ (read_vector_at _ _ _ Hw)).
  rewrite (bindM_ok _ _ _ _ _ (read_matrix_at _ _ _ Hacc)).
  rewrite bindM_lift. destruct (set_column acc i v); auto.
  unfold Store.write.
  destruct (Nat.ltb_spec ur (length h)) as [|Hge]; auto.
  apply lookup_lt in Hacc. lia.
Qed.

Section ColumnLoopRun.

(** The column loop over the store against the column loop over values,
    for a vector transform [fS] that simulates [fV]. *)
Variable fV : list R -> list R -> result (list R).
Variable fS : Store.ref -> Store.ref -> Store.M Store.ref.
Variable hf : R -> R.
Hypothesis f_run : forall h xv rgr x rg,
  Store.vector_at h xv x -> Store.vector_at h rgr rg ->
  Store.simulates (fun u => Store.ONdarray (Arr1 u)) (fV x rg) (fS xv rgr) h.

(** The store when the loop is entered, up to the array being filled,
    which is the next object made. *)
Variable hb : Store.heap.
Variables X rr fr : Store.ref.
Variable m : Matrix.
Variable ranges : list (list R).
Variable fl : list bool.
Hypothesis HX : nth_error hb X = Some (Store.ONdarray (Arr2 m)).
Hypothesis Hranges : Store.ranges_at hb rr ranges.
Hypothesis Hfl : nth_error hb fr = Some (Store.OBools fl).

Lemma body_run (i : nat) (h : Store.heap) (acc : Matrix) :
  Store.unchanged hb h ->
  nth_error h (length hb) = Some (Store.ONdarray (Arr2 acc)) ->
  exists res h',
    Store.bindM (Store.alloc (Store.OView X i))
      (fun xi =>
         Store.bindM (Store.read_bools fr)
           (fun flags =>
              Store.bindM (Store.lift (index flags i))
                (fun flag : bool =>
                   if flag then
                     Store.bindM (Store.getitem rr i)
                       (fun r =>
                          Store.bindM (fS xi r)
                            (fun u =>
                               Store.bindM (Store.map_array hf u)
                                 (fun w => Store.set_column (length hb) i w)))
                   else
                     Store.bindM (Store.getitem rr i)
                       (fun r =>
                          Store.bindM (fS xi r)
                            (fun u => Store.set_column (length hb) i u)))))
      h = (res, h') /\
    Store.unchanged hb h' /\
    match (flag <- index fl i ;;
           if flag : bool then
             rg <- index ranges i ;;
             u <- fV (column i (rows_of m)) rg ;;
             set_column acc i (map hf u)
           else
             rg <- index ranges i ;;
             u <- fV (column i (rows_of m)) rg ;;
             set_column acc i u) with
    | Ok acc' =>
        res = Ok tt /\
        nth_error h' (length hb) = Some (Store.ONdarray (Arr2 acc'))
    | Raise e => res = Raise e
    end.
Proof.
  intros U Hacc.
  rewrite bindM_alloc.
  set (h1 := h ++ [Store.OView X i]).
  assert (U1 : Store.unchanged hb h1) by (unfold h1; unch).
  assert (Hxi : Store.vector_at h1 (length h) (column i (rows_of m))).
  { right; right; right. exists X, i, m.
    split; [apply (lookup_app_new h [])|]. split; auto. }
  assert (Hacc1 : nth_error h1 (length hb) = Some (Store.ONdarray (Arr2 acc)))
    by (now apply lookup_app_l).
  rewrite (bindM_ok _ _ _ _ _ (read_bools_at _ _ _ (U1 _ _ Hfl))).
  rewrite bindM_lift.
  destruct (index fl i) as [flag|e]; cbn [bind];
    [|exists (Raise e), h1; auto].
  pose proof (getitem_run h1 rr ranges i
                (ranges_at_unchanged _ _ _ _ U1 Hranges)) as Hg.
  assert (Step : forall (k : Store.ref -> Store.M unit) (post : list R -> list R),
    (forall u h3 ru,
       Store.unchanged h1 h3 ->
       nth_error h3 ru = Some (Store.ONdarray (Arr1 u)) ->
       exists res h',
         k ru h3 = (res, h') /\ Store.unchanged hb h' /\
         match set_column acc i (post u) with
         | Ok acc' =>
             res = Ok tt /\
             nth_error h' (length hb) = Some (Store.ONdarray (Arr2 acc'))
         | Raise e => res = Raise e
         end) ->
    exists res h',
      Store.bindM (Store.getitem rr i)
        (fun r => Store.bindM (fS (length h) r) k) h1 = (res, h') /\
      Store.unchanged hb h' /\
      match (rg <- index ranges i ;;
             u <- fV (column i (rows_of m)) rg ;;
             set_column acc i (post u)) with
      | Ok acc' =>
          res = Ok tt /\
          nth_error h' (length hb) = Some (Store.ONdarray (Arr2 acc'))
      | Raise e => res = Raise e
      end).
  { intros k post Hk.
    destruct (index ranges i) as [rg|e]; cbn [bind].
    - destruct Hg as (r & h2 & Eg & U2 & Hr).
      rewrite (bindM_ok _ _ _ _ _ Eg).
      destruct (f_run h2 (length h) r (column i (rows_of m)) rg
                  (vector_at_unchanged _ _ _ _ U2 Hxi) Hr) as [U3 Ag].
      destruct (fS (length h) r h2) as [res3 h3] eqn:Ef.
      cbn [fst snd] in U3, Ag. unfold Store.agrees in Ag.
      destruct (fV (column i (rows_of m)) rg) as [u|e]; cbn [bind fst snd] in *.
      + destruct Ag as (ru & -> & Hru).
        rewrite (bindM_ok _ _ _ _ _ Ef).
        apply Hk; auto. eapply unchanged_trans; eauto.
      + subst res3. rewrite (bindM_raise _ _ _ _ _ Ef).
        exists (Raise e), h3. repeat split; auto.
        eapply unchanged_trans; [exact U1|]. eapply unchanged_trans; eauto.
    - rewrite (bindM_raise _ _ _ _ _ Hg). exists (Raise e), h1. auto. }
  assert (Write : forall h4 w v,
    Store.unchanged h1 h4 -> Store.vector_at h4 w v ->
    exists res h',
      Store.set_column (length hb) i w h4 = (res, h') /\
      Store.unchanged hb h' /\
      match set_column acc i v with
      | Ok acc' =>
          res = Ok tt /\
          nth_error h' (length hb) = Some (Store.ONdarray (Arr2 acc'))
      | Raise e => res = Raise e
      end).
  { intros h4 w v U4 Hw.
    pose proof (U4 _ _ Hacc1) as Hacc4.
    rewrite (set_column_run h4 _ w i v acc Hw Hacc4).
    destruct (set_column acc i v) as [acc'|e].
    - eexists _, _. split; [reflexivity|]. split.
      + intros r o Hr. rewrite heap_set_other.
        * apply U4, U1, Hr.
        * apply lookup_lt in Hr. lia.
      + split; auto. apply heap_set_same. now apply lookup_lt in Hacc4.
    - exists (Raise e), h4. repeat split; auto.
      eapply unchanged_trans; eauto. }
  destruct flag.
  - apply (Step (fun u => Store.bindM (Store.map_array hf u)
                   (fun w => Store.set_column (length hb) i w))
             (fun u => map hf u)).
    intros u h3 ru U3 Hru.
    unfold Store.map_array.
    rewrite (bindM_ok _ _ _ _ _
               (bindM_ok _ _ _ _ _
                  (read_vector_at _ _ _ (or_introl Hru)))).
    apply Write.
    + eapply unchanged_trans; [exact U3 | apply unchanged_app].
    + left. apply (lookup_app_new h3 []).
  - apply (Step (fun u => Store.set_column (length hb) i u) (fun u => u)).
    intros u h3 ru U3 Hru. apply Write; auto. now left.
Qed.

Lemma loop_run (k : nat) :
  forall (i0 : nat) (h : Store.heap) (acc : Matrix),
  Store.unchanged hb h ->
  nth_error h (length hb) = Some (Store.ONdarray (Arr2 acc)) ->
  exists res h',
    Store.for_each_st (seq i0 k)
      (fun i =>
         Store.bindM (Store.alloc (Store.OView X i))
           (fun xi =>
              Store.bindM (Store.read_bools fr)
                (fun flags =>
                   Store.bindM (Store.lift (index flags i))
                     (fun flag : bool =>
                        if flag then
                          Store.bindM (Store.getitem rr i)
                            (fun r =>
                               Store.bindM (fS xi r)
                                 (fun u =>
                                    Store.bindM (Store.map_array hf u)
                                      (fun w =>
                                         Store.set_column (length hb) i w)))
                        else
                          Store.bindM (Store.getitem rr i)
                            (fun r =>
                               Store.bindM (fS xi r)
                                 (fun u =>
                                    Store.set_column (length hb) i u))))))
      h = (res, h') /\
    Store.unchanged hb h' /\
    match for_enumerate (map (fun j => column j (rows_of m)) (seq i0 k)) i0 acc
            (fun i xi M =>
               flag <- index fl i ;;
               if flag : bool then
                 rg <- index ranges i ;; u <- fV xi rg ;;
                 set_column M i (map hf u)
               else
                 rg <- index ranges i ;; u <- fV xi rg ;;
                 set_column M i u) with
    | Ok acc' =>
        res = Ok tt /\
        nth_error h' (length hb) = Some (Store.ONdarray (Arr2 acc'))
    | Raise e => res = Raise e
    end.
Proof.
  induction k as [|k IH]; intros i0 h acc U Hacc;
    cbn [seq map for_enumerate Store.for_each_st].
  - exists (Ok tt), h. auto.
  - destruct (body_run i0 h acc U Hacc) as (res & h1 & E & U1 & Hres).
    match type of Hres with
    | match ?b with _ => _ end => destruct b as [acc1|e]
    end; cbn [bind].
    + destruct Hres as [-> Hacc1].
      rewrite (bindM_ok _ _ _ _ _ E). apply IH; auto.
    + subst res. rewrite (bindM_raise _ _ _ _ _ E).
      exists (Raise e), h1. auto.
Qed.

End ColumnLoopRun.

Lemma promote_2d_run (h : Store.heap) (X : Store.ref) (x : ndarray) :
  nth_error h X = Some (Store.ONdarray x) ->
  exists X2 h',
    Store.promote_2d X h = (Ok X2, h') /\ Store.unchanged h h' /\
    nth_error h' X2 = Some (Store.ONdarray (Arr2 (promote_2d x))).
Proof.
  intros H. unfold Store.promote_2d.
  rewrite (bindM_ok _ _ _ _ _ (load_at _ _ _ H)).
  destruct x as [v|m]; cbn [promote_2d].
  - unfold Store.deepcopy.
    rewrite (bindM_ok _ _ _ _ _
               (bindM_ok _ _ _ _ _ (load_at _ _ _ H))).
    unfold Store.alloc at 1.
    rewrite (bindM_ok _ _ _ _ _
               (read_vector_at _ (length h) v
                  (or_introl (lookup_app_new h [] _)))).
    unfold Store.alloc.
    eexists _, _. split; [reflexivity|]. split; [unch|].
    apply (lookup_app_new _ []).
  - exists X, h. repeat split; auto. apply unchanged_refl.
Qed.

Lemma read_rows_at (h : Store.heap) (l : list Store.ref)
    (rows : list (list R)) :
  Forall2 (fun ri row => nth_error h ri = Some (Store.OFloats row)) l rows ->
  Store.read_rows l h = (Ok rows, h).
Proof.
  induction 1 as [|r row l rows Hr _ IH]; cbn [Store.read_rows]; auto.
  rewrite (bindM_ok _ _ _ _ _ (load_at _ _ _ Hr)).
  now rewrite (bindM_ok _ _ _ _ _ IH).
Qed.

Lemma ranges_by_column_run (h : Store.heap) (Xr : Store.ref)
    (rows : list (list R)) (dim : nat) :
  Store.nested_at h Xr rows ->
  exists res h',
    Store.ranges_by_column Xr dim h = (res, h') /\ Store.unchanged h h' /\
    match ranges_by_column rows dim with
    | Ok ranges => exists rr, res = Ok rr /\ Store.ranges_at h' rr ranges
    | Raise e => res = Raise e
    end.
Proof.
  intros (l & Hl & Hrows). unfold Store.ranges_by_column.
  rewrite (bindM_ok _ _ _ _ _ (load_at _ _ _ Hl)).
  pose proof (read_rows_at h l rows Hrows) as Hread.
  destruct Hrows as [|r row l rows Hr Hrows]; cbn [ranges_by_column].
  - rewrite !bindM_alloc. unfold Store.alloc.
    eexists _, _. split; [reflexivity|]. split; [unch|].
    eexists. split; [reflexivity|]. left.
    exists (length h), dim. split; [apply (lookup_app_new _ [])|].
    split; auto.
    apply lookup_app_l, lookup_app_l. apply (lookup_app_new h []).
  - rewrite (bindM_ok _ _ _ _ _ Hread). rewrite bindM_lift.
    destruct (np_array2 (row :: rows)) as [A|e]; cbn [bind].
    + rewrite bindM_alloc. unfold Store.alloc.
      eexists _, _. split; [reflexivity|]. split; [unch|].
      eexists. split; [reflexivity|]. right.
      exists (length h), A. split; [apply (lookup_app_new _ [])|].
      split; auto. apply lookup_app_l. apply (lookup_app_new h []).
    + exists (Raise e), h. repeat split; auto. apply unchanged_refl.
Qed.

Lemma flags_by_column_run (h : Store.heap) (Fr : Store.ref)
    (flags : list bool) (dim : nat) :
  nth_error h Fr = Some (Store.OBools flags) ->
  exists fr h',
    Store.flags_by_column Fr dim h = (Ok fr, h') /\ Store.unchanged h h' /\
    nth_error h' fr = Some (Store.OBools (flags_by_column flags dim)).
Proof.
  intros H. unfold Store.flags_by_column.
  rewrite (bindM_ok _ _ _ _ _ (read_bools_at _ _ _ H)).
  destruct flags as [|b flags]; cbn [flags_by_column].
  - eexists _, _. split; [reflexivity|]. split; [unch|].
    apply (lookup_app_new h []).
  - exists Fr, h. repeat split; auto. apply unchanged_refl.
Qed.

Section ScaleRun.

Variable fV : list R -> list R -> result (list R).
Variable fS : Store.ref -> Store.ref -> Store.M Store.ref.
Variable hf : R -> R.
Hypothesis f_run : forall h xv rgr x rg,
  Store.vector_at h xv x -> Store.vector_at h rgr rg ->
  Store.simulates (fun u => Store.ONdarray (Arr1 u)) (fV x rg) (fS xv rgr) h.

Lemma scale_run (h : Store.heap) (X Xr Fr : Store.ref)
    (decimals : option Z) (x : ndarray) (rows : list (list R))
    (flags : list bool) :
  nth_error h X = Some (Store.ONdarray x) ->
  Store.nested_at h Xr rows ->
  nth_error h Fr = Some (Store.OBools flags) ->
  Store.simulates (fun M => Store.ONdarray (Arr2 M))
    (let X := promote_2d x in
     let dim := n_cols X in
     X_range <- ranges_by_column rows dim ;;
     let log_flags := flags_by_column flags dim in
     let Xunit := np_zeros (n_rows X) (n_cols X) in
     Xunit <- for_enumerate (rows_of (np_transpose X)) 0%nat Xunit
       (fun i xi Xunit =>
          flag <- index log_flags i ;;
          if flag : bool then
            r <- index X_range i ;; u <- fV xi r ;;
            set_column Xunit i (map hf u)
          else
            r <- index X_range i ;; u <- fV xi r ;;
            set_column Xunit i u) ;;
     Ok (round_if decimals Xunit))
    (Store.bindM (Store.promote_2d X) (fun X =>
     Store.bindM (Store.read_matrix X) (fun m =>
     let dim := n_cols m in
     Store.bindM (Store.ranges_by_column Xr dim) (fun X_range =>
     Store.bindM (Store.flags_by_column Fr dim) (fun log_flags =>
     Store.bindM (Store.alloc
                    (Store.ONdarray
                       (Arr2 (np_zeros (n_rows m) (n_cols m))))) (fun Xunit =>
     Store.bindM (Store.alloc (Store.OTransposed X)) (fun Xt =>
     Store.bindM
       (Store.for_each_st (seq 0 (n_cols m))
          (fun i =>
             Store.bindM (Store.alloc (Store.OView X i)) (fun xi =>
             Store.bindM (Store.read_bools log_flags) (fun flags =>
             Store.bindM (Store.lift (index flags i)) (fun flag : bool =>
             if flag then
               Store.bindM (Store.getitem X_range i) (fun r =>
               Store.bindM (fS xi r) (fun u =>
               Store.bindM (Store.map_array hf u) (fun w =>
               Store.set_column Xunit i w)))
             else
               Store.bindM (Store.getitem X_range i) (fun r =>
               Store.bindM (fS xi r) (fun u =>
               Store.set_column Xunit i u)))))))
       (fun _ => Store.round_if decimals Xunit))))))))
    h.
Proof.
  intros HX HXr HFr. unfold Store.simulates. cbv zeta.
  destruct (promote_2d_run h X x HX) as (X2 & h1 & E1 & U1 & HX2).
  rewrite (bindM_ok _ _ _ _ _ E1).
  rewrite (bindM_ok _ _ _ _ _ (read_matrix_at _ _ _ HX2)).
  set (m := promote_2d x) in *.
  assert (HXr1 : Store.nested_at h1 Xr rows).
  { destruct HXr as (l & Hl & Hrows). exists l. split; auto.
    eapply Forall2_impl; [|exact Hrows]. cbv beta. auto. }
  destruct (ranges_by_column_run h1 Xr rows (n_cols m) HXr1)
    as (res2 & h2 & E2 & U2 & Hres2).
  destruct (ranges_by_column rows (n_cols m)) as [ranges|e]; cbn [bind].
  2:{ subst res2. rewrite (bindM_raise _ _ _ _ _ E2). cbn [fst snd].
      split; [eapply unchanged_trans; eauto | reflexivity]. }
  destruct Hres2 as (rr & -> & Hrr).
  rewrite (bindM_ok _ _ _ _ _ E2).
  destruct (flags_by_column_run h2 Fr flags (n_cols m) (U2 _ _ (U1 _ _ HFr)))
    as (fr & hb & E3 & U3 & Hfr).
  rewrite (bindM_ok _ _ _ _ _ E3). rewrite !bindM_alloc.
  set (zeros := Store.ONdarray (Arr2 (np_zeros (n_rows m) (n_cols m)))).
  set (h4 := (hb ++ [zeros]) ++ [Store.OTransposed X2]).
  assert (Uh : Store.unchanged h hb)
    by (eapply unchanged_trans; [|exact U3];
        eapply unchanged_trans; eauto).
  destruct (loop_run fV fS hf f_run hb X2 rr fr m ranges
              (flags_by_column flags (n_cols m))
              (U3 _ _ (U2 _ _ HX2))
              (ranges_at_unchanged _ _ _ _ U3 Hrr) Hfr
              (n_cols m) 0%nat h4 (np_zeros (n_rows m) (n_cols m)))
    as (res & h5 & E5 & U5 & Hres).
  { unfold h4. unch. }
  { unfold h4. apply lookup_app_l. apply (lookup_app_new hb []). }
  unfold np_transpose at 1. cbn [rows_of].
  match type of Hres with
  | match ?b with _ => _ end => destruct b as [acc|e]
  end; cbn [bind].
  - destruct Hres as [-> Hacc]. rewrite (bindM_ok _ _ _ _ _ E5).
    destruct decimals as [d|]; cbn [Store.round_if round_if].
    + rewrite (bindM_ok _ _ _ _ _ (read_matrix_at _ _ _ Hacc)).
      unfold Store.alloc. cbn [fst snd]. split.
      * eapply unchanged_trans; [exact Uh|].
        eapply unchanged_trans; [exact U5 | apply unchanged_app].
      * eexists. split; [reflexivity|]. apply (lookup_app_new h5 []).
    + cbn [Store.ret fst snd]. split.
      * eapply unchanged_trans; eauto.
      * exists (length hb). split; auto.
  - subst res. rewrite (bindM_raise _ _ _ _ _ E5). cbn [fst snd].
    split; [eapply unchanged_trans; eauto | reflexivity].
Qed.

End ScaleRun.

(** The matrix transforms over the store return what the transforms over
    values return, and raise what they raise. *)
Lemma unitscale_X_run (h : Store.heap) (X Xr Fr : Store.ref)
    (decimals : option Z) (x : ndarray) (rows : list (list R))
    (flags : list bool) :
  nth_error h X = Some (Store.ONdarray x) ->
  Store.nested_at h Xr rows ->
  nth_error h Fr = Some (Store.OBools flags) ->
  Store.simulates (fun M => Store.ONdarray (Arr2 M))
    (unitscale_X x rows flags decimals)
    (Store.unitscale_X X Xr Fr decimals) h.
Proof.
  exact (scale_run unitscale_xv Store.unitscale_xv log10 unitscale_xv_run
           h X Xr Fr decimals x rows flags).
Qed.

Lemma inverse_unitscale_X_run (h : Store.heap) (X Xr Fr : Store.ref)
    (decimals : option Z) (x : ndarray) (rows : list (list R))
    (flags : list bool) :
  nth_error h X = Some (Store.ONdarray x) ->
  Store.nested_at h Xr rows ->
  nth_error h Fr = Some (Store.OBools flags) ->
  Store.simulates (fun M => Store.ONdarray (Arr2 M))
    (inverse_unitscale_X x rows flags decimals)
    (Store.inverse_unitscale_X X Xr Fr decimals) h.
Proof.
  exact (scale_run inverse_unitscale_xv Store.inverse_unitscale_xv pow10
           inverse_unitscale_xv_run h X Xr Fr decimals x rows flags).
Qed.

Lemma read_matrixlike_at (h : Store.heap) (r : Store.ref) (x : MatrixLike2d) :
  nth_error h r = Some (Store.of_matrixlike x) ->
  Store.read_matrixlike r h = (Ok x, h).
Proof.
  intros H. unfold Store.read_matrixlike, Store.bindM.
  rewrite (load_at _ _ _ H). now destruct x.
Qed.

Lemma vector_like_at (h : Store.heap) (r : Store.ref) (x : MatrixLike2d)
    (v : list R) :
  nth_error h r = Some (Store.vector_like x v) -> Store.vector_at h r v.
Proof. destruct x; cbn [Store.vector_like]; [left | right; left]; auto. Qed.

Lemma standardize_X_run (h : Store.heap) (X : Store.ref)
    (rm rs : option Store.ref) (x : MatrixLike2d) (vm vs : option (list R)) :
  nth_error h X = Some (Store.of_matrixlike x) ->
  Store.option_at h rm vm -> Store.option_at h rs vs ->
  Store.simulates Store.of_matrixlike
    (standardize_X x vm vs) (Store.standardize_X X rm rs) h.
Proof.
  intros HX Hm Hs. unfold Store.simulates, Store.standardize_X, standardize_X.
  rewrite (bindM_ok _ _ _ _ _ (read_matrixlike_at _ _ _ HX)).
  assert (Tail : forall h1 mu (sd : option Store.ref) mv sv,
    Store.unchanged h h1 ->
    Store.vector_at h1 mu mv -> Store.option_at h1 sd sv ->
    let run :=
      Store.bindM (Store.read_vector mu) (fun mv =>
      Store.bindM (Store.lift (broadcast Rminus x mv)) (fun D =>
      Store.bindM (Store.alloc (Store.of_matrixlike D)) (fun d =>
      match sd with
      | None => Store.lift (Raise TypeError)
      | Some s =>
          Store.bindM (Store.read_vector s) (fun sv =>
          Store.bindM (Store.lift (broadcast Rdiv D sv)) (fun Q =>
          Store.alloc (Store.of_matrixlike Q)))
      end))) h1 in
    Store.unchanged h (snd run) /\
    Store.agrees Store.of_matrixlike
      (D <- broadcast Rminus x mv ;;
       match sv with
       | None => Raise TypeError
       | Some s => broadcast Rdiv D s
       end) run).
  { intros h1 mu sd mv sv U Hmu Hsd. cbv zeta.
    rewrite (bindM_ok _ _ _ _ _ (read_vector_at _ _ _ Hmu)).
    rewrite bindM_lift.
    destruct (broadcast Rminus x mv) as [D|e]; cbn [bind];
      [|split; [exact U | reflexivity]].
    rewrite bindM_alloc.
    destruct sd as [s|], sv as [sv|]; cbn [Store.option_at] in Hsd;
      try contradiction.
    - rewrite (bindM_ok _ _ _ _ _
                 (read_vector_at _ _ _ (vector_at_app _ [_] _ _ Hsd))).
      rewrite bindM_lift.
      destruct (broadcast Rdiv D sv) as [Q|e]; cbn [fst snd].
      + split; [unch|]. eexists. split; [reflexivity|].
        apply (lookup_app_new _ []).
      + split; [unch | reflexivity].
    - cbn [Store.lift fst snd]. split; [unch | reflexivity]. }
  destruct rm as [mu|], vm as [mv|]; cbn [Store.option_at] in Hm;
    try contradiction.
  - rewrite bindM_ret. cbv beta iota. apply Tail; auto. apply unchanged_refl.
  - rewrite (bindM_ok _ _ (h) ((h ++ [Store.vector_like x (mean0 x)])
                                 ++ [Store.vector_like x (std0 x)])
               (length h,
                Some (length (h ++ [Store.vector_like x (mean0 x)]))))
      by reflexivity.
    cbv beta iota.
    apply (Tail _ _ (Some (length (h ++ [Store.vector_like x (mean0 x)])))
             (mean0 x) (Some (std0 x))).
    + unch.
    + apply (vector_like_at _ _ x).
      apply lookup_app_l. apply (lookup_app_new h []).
    + apply (vector_like_at _ _ x). apply (lookup_app_new _ []).
Qed.

Lemma inverse_standardize_X_run (h : Store.heap) (X rm rs : Store.ref)
    (x : MatrixLike2d) (vm vs : list R) :
  nth_error h X = Some (Store.of_matrixlike x) ->
  Store.vector_at h rm vm -> Store.vector_at h rs vs ->
  Store.simulates Store.of_matrixlike
    (inverse_standardize_X x vm vs) (Store.inverse_standardize_X X rm rs) h.
Proof.
  intros HX Hm Hs.
  unfold Store.simulates, Store.inverse_standardize_X, inverse_standardize_X.
  rewrite (bindM_ok _ _ _ _ _ (load_at _ _ _ HX)).
  destruct x as [m|m]; cbn [Store.of_matrixlike];
    rewrite (bindM_ok _ _ _ _ _ (read_vector_at _ _ _ Hs));
    rewrite bindM_lift.
  - destruct (broadcast_rows Rmult m vs) as [P|e]; cbn [bind];
      [|split; [apply unchanged_refl | reflexivity]].
    rewrite bindM_alloc.
    rewrite (bindM_ok _ _ _ _ _
               (read_vector_at _ _ _ (vector_at_app _ [_] _ _ Hm))).
    rewrite bindM_lift.
    destruct (broadcast_rows Rplus P vm) as [S|e]; cbn [bind fst snd];
      [|split; [unch | reflexivity]].
    split; [unch|]. eexists. split; [reflexivity|].
    apply (lookup_app_new _ []).
  - destruct (torch_broadcast_rows Rmult m vs) as [P|e]; cbn [bind];
      [|split; [apply unchanged_refl | reflexivity]].
    rewrite bindM_alloc.
    rewrite (bindM_ok _ _ _ _ _
               (read_vector_at _ _ _ (vector_at_app _ [_] _ _ Hm))).
    rewrite bindM_lift.
    destruct (torch_broadcast_rows Rplus P vm) as [S|e]; cbn [bind fst snd];
      [|split; [unch | reflexivity]].
    split; [unch|]. eexists. split; [reflexivity|].
    apply (lookup_app_new _ []).
Qed.

End Simulation.

(** * Further properties *)

(** ** Matrices by their entries *)

Lemma matrix_ext (M N : Matrix) :
  n_cols M = n_cols N -> n_rows M = n_rows N ->
  wf_matrix M -> wf_matrix N ->
  (forall k i, (k < n_rows M)%nat -> (i < n_cols M)%nat ->
     entry M k i = entry N k i) ->
  M = N.
Proof.
  destruct M as [c rows], N as [c' rows']. unfold n_rows, wf_matrix, entry.
  cbn [n_cols rows_of]. intros <- Hr Hw Hw' He. f_equal.
  apply (nth_ext rows rows' [] []); auto.
  intros k Hk.
  rewrite Forall_forall in Hw, Hw'.
  assert (L : length (nth k rows []) = c) by (apply Hw, nth_In, Hk).
  assert (L' : length (nth k rows' []) = c)
    by (apply Hw', nth_In; rewrite <- Hr; exact Hk).
  apply (nth_ext _ _ 0 0); [congruence|].
  intros i Hi. apply He; auto. now rewrite <- L.
Qed.

Lemma promote_2d_wf (X : ndarray) :
  (forall m, X = Arr2 m -> wf_matrix m) -> wf_matrix (promote_2d X).
Proof.
  destruct X as [v|m]; cbn [promote_2d]; intros H.
  - repeat constructor.
  - now apply H.
Qed.

(** The ranges a fitting [X_range] gives the columns are [column_bounds]. *)
Lemma ranges_fit_bounds (X_range : list (list R)) (dim : nat) :
  ranges_fit X_range dim ->
  exists ranges,
    ranges_by_column X_range dim = Ok ranges /\
    forall i, (i < dim)%nat ->
      exists r, nth_error ranges i = Some r /\
                nth_error r 0 = Some (fst (column_bounds X_range i)) /\
                nth_error r 1 = Some (snd (column_bounds X_range i)).
Proof.
  intros [->|(lows & highs & rest & -> & Hrect & Hdim)].
  - exists (repeat [0; 1] dim). split; [reflexivity|].
    intros i Hi. exists [0; 1].
    split; [now apply nth_error_repeat_lt | split; reflexivity].
  - destruct (ranges_by_column_supplied lows highs rest dim Hrect)
      as (ranges & Hranges & Hnth).
    exists ranges. split; auto. intros i Hi. apply Hnth. lia.
Qed.

Lemma unitscale_X_fit {rnd : Around} (X : ndarray) (X_range : list (list R))
    (flags : list bool) (decimals : option Z) :
  let X2 := promote_2d X in
  ranges_fit X_range (n_cols X2) -> flags_fit flags (n_cols X2) ->
  exists M,
    unitscale_X X X_range flags decimals = Ok (round_if decimals M) /\
    n_cols M = n_cols X2 /\ n_rows M = n_rows X2 /\ wf_matrix M /\
    forall k i, (k < n_rows X2)%nat -> (i < n_cols X2)%nat ->
      let lb := fst (column_bounds X_range i) in
      let rb := snd (column_bounds X_range i) in
      entry M k i =
        if nth i flags false
        then log10 ((entry X2 k i - lb) / (rb - lb))
        else (entry X2 k i - lb) / (rb - lb).
Proof.
  intros X2 Hr Hf.
  destruct (ranges_fit_bounds _ _ Hr) as (ranges & Hranges & Hnth).
  exact (unitscale_X_entries X X_range flags decimals ranges _ _
           Hranges Hnth Hf).
Qed.

Lemma inverse_unitscale_X_fit {rnd : Around} (X : ndarray) (X_range : list (list R))
    (flags : list bool) (decimals : option Z) :
  let X2 := promote_2d X in
  ranges_fit X_range (n_cols X2) -> flags_fit flags (n_cols X2) ->
  exists M,
    inverse_unitscale_X X X_range flags decimals = Ok (round_if decimals M) /\
    n_cols M = n_cols X2 /\ n_rows M = n_rows X2 /\ wf_matrix M /\
    forall k i, (k < n_rows X2)%nat -> (i < n_cols X2)%nat ->
      let lb := fst (column_bounds X_range i) in
      let rb := snd (column_bounds X_range i) in
      entry M k i =
        if nth i flags false
        then pow10 (lb + (rb - lb) * entry X2 k i)
        else lb + (rb - lb) * entry X2 k i.
Proof.
  intros X2 Hr Hf.
  destruct (ranges_fit_bounds _ _ Hr) as (ranges & Hranges & Hnth).
  exact (inverse_unitscale_X_entries X X_range flags decimals ranges _ _
           Hranges Hnth Hf).
Qed.

(** ** The vector transforms: the other round trip, and their one error *)

(** Scaling a vector back to real units and then to the unit scale, both
    with the same two bounds, returns the vector, provided the bounds
    differ. *)
Theorem inverse_then_unitscale_xv (u r : list R) (lo hi : R) :
  nth_error r 0 = Some lo -> nth_error r 1 = Some hi -> lo <> hi ->
  (x <- inverse_unitscale_xv u r ;; unitscale_xv x r) = Ok u.
Proof.
  intros H0 H1 Hne.
  rewrite (inverse_unitscale_xv_spec _ _ _ _ H0 H1). cbn [bind].
  rewrite (unitscale_xv_spec _ _ _ _ H0 H1). f_equal.
  rewrite map_map.
  transitivity (map (fun x : R => x) u); [|apply map_id].
  apply map_ext. intros x. field. lra.
Qed.

Lemma inverse_then_unitscale_xv_witness :
  nth_error [10; 20] 0 = Some 10 /\ nth_error [10; 20] 1 = Some 20 /\
  10 <> 20 /\
  (x <- inverse_unitscale_xv [0; 1 / 2] [10; 20] ;; unitscale_xv x [10; 20])
    = Ok [0; 1 / 2].
Proof.
  assert (H0 : nth_error [10; 20] 0 = Some 10) by reflexivity.
  assert (H1 : nth_error [10; 20] 1 = Some 20) by reflexivity.
  assert (Hne : 10 <> 20) by lra.
  split; [exact H0|]. split; [exact H1|]. split; [exact Hne|].
  exact (inverse_then_unitscale_xv [0; 1 / 2] [10; 20] 10 20 H0 H1 Hne).
Defined.

(** Both vector transforms raise an index error when the range has fewer
    than two entries; with two or more they return a vector as long as
    their input. *)
Theorem vector_transforms_need_two_bounds (xv r : list R) :
  ((length r < 2)%nat ->
   unitscale_xv xv r = Raise IndexError /\
   inverse_unitscale_xv xv r = Raise IndexError) /\
  ((2 <= length r)%nat ->
   exists u v,
     unitscale_xv xv r = Ok u /\ inverse_unitscale_xv xv r = Ok v /\
     length u = length xv /\ length v = length xv).
Proof.
  split; intros H.
  - destruct r as [|a [|b r]]; cbn [length] in H; try lia; split; reflexivity.
  - destruct r as [|a [|b r]]; cbn [length] in H; try lia.
    eexists _, _. split; [reflexivity|]. split; [reflexivity|].
    now rewrite !length_map.
Qed.

Lemma vector_transforms_need_two_bounds_witness :
  ((length [5] < 2)%nat /\
   unitscale_xv [1; 2] [5] = Raise IndexError /\
   inverse_unitscale_xv [1; 2] [5] = Raise IndexError) /\
  ((2 <= length [0; 4])%nat /\
   exists u v,
     unitscale_xv [1; 2] [0; 4] = Ok u /\
     inverse_unitscale_xv [1; 2] [0; 4] = Ok v /\
     length u = length [1; 2] /\ length v = length [1; 2]).
Proof.
  split.
  - assert (H : (length [5] < 2)%nat) by (cbn; lia).
    split; [exact H|].
    exact (proj1 (vector_transforms_need_two_bounds [1; 2] [5]) H).
  - assert (H : (2 <= length [0; 4])%nat) by (cbn; lia).
    split; [exact H|].
    exact (proj2 (vector_transforms_need_two_bounds [1; 2] [0; 4]) H).
Defined.

(** ** The matrix transforms without the log flag *)

Lemma unit_interval_forward (x lb rb : R) :
  lb < rb -> lb <= x <= rb -> 0 <= (x - lb) / (rb - lb) <= 1.
Proof.
  intros Hr [H1 H2]. assert (Hp : 0 < rb - lb) by lra.
  split.
  - apply Rmult_le_pos; [lra|]. left. now apply Rinv_0_lt_compat.
  - apply (Rmult_le_reg_r (rb - lb)); auto.
    unfold Rdiv. rewrite Rmult_assoc, Rinv_l by lra. lra.
Qed.


(** With no column flagged, data inside the column bounds is scaled into
    the unit interval. *)
Theorem unitscale_X_into_unit_interval {rnd : Around} (X : ndarray)
    (X_range : list (list R)) (flags : list bool) :
  let X2 := promote_2d X in
  ranges_fit X_range (n_cols X2) -> flags_fit flags (n_cols X2) ->
  (forall i, nth i flags false = false) ->
  (forall k i, (k < n_rows X2)%nat -> (i < n_cols X2)%nat ->
     fst (column_bounds X_range i) < snd (column_bounds X_range i) /\
     fst (column_bounds X_range i) <= entry X2 k i
       <= snd (column_bounds X_range i)) ->
  exists U,
    unitscale_X X X_range flags None = Ok U /\
    forall k i, (k < n_rows X2)%nat -> (i < n_cols X2)%nat ->
      0 <= entry U k i <= 1.
Proof.
  intros X2 Hr Hf Hoff Hin.
  destruct (unitscale_X_fit X X_range flags None Hr Hf)
    as (U & HU & _ & _ & _ & He).
  exists U. split; [exact HU|]. intros k i Hk Hi.
  rewrite (He k i Hk Hi), Hoff.
  destruct (Hin k i Hk Hi). now apply unit_interval_forward.
Qed.

Lemma unitscale_X_into_unit_interval_witness :
  exists U,
    unitscale_X (rnd := around_exact) (Arr1 [50]) [[0]; [100]] [] None = Ok U /\
    forall k i, (k < 1)%nat -> (i < 1)%nat -> 0 <= entry U k i <= 1.
Proof.
  apply (unitscale_X_into_unit_interval (rnd := around_exact)
           (Arr1 [50]) [[0]; [100]] []).
  - right. exists [0], [100], []. repeat split; auto.
  - left; reflexivity.
  - intros [|i]; reflexivity.
  - intros k i Hk Hi.
    cbv [n_rows n_cols promote_2d rows_of length] in Hk, Hi.
    assert (k = 0)%nat by lia. assert (i = 0)%nat by lia. subst.
    cbv [column_bounds fst snd nth entry promote_2d rows_of].
    repeat split; lra.
Defined.



(** Called with the default ranges and flags, both matrix transforms
    return their input (a 1-D input as a one-row matrix). *)
Theorem default_scaling_is_identity {rnd : Around} (X : ndarray) :
  wf_matrix (promote_2d X) ->
  unitscale_X X [] [] None = Ok (promote_2d X) /\
  inverse_unitscale_X X [] [] None = Ok (promote_2d X).
Proof.
  intros Hw.
  assert (Hr : ranges_fit [] (n_cols (promote_2d X))) by (left; reflexivity).
  assert (Hf : flags_fit [] (n_cols (promote_2d X))) by (left; reflexivity).
  destruct (unitscale_X_fit X [] [] None Hr Hf)
    as (U & HU & Hc & Hn & HwU & He).
  destruct (inverse_unitscale_X_fit X [] [] None Hr Hf)
    as (V & HV & Hc' & Hn' & HwV & He').
  cbn [round_if] in HU, HV. rewrite HU, HV.
  split; f_equal; apply matrix_ext; auto; intros k i Hk Hi.
  - rewrite He by congruence. cbn [column_bounds fst snd].
    replace (nth i [] false) with false by (now destruct i). field.
  - rewrite He' by congruence. cbn [column_bounds fst snd].
    replace (nth i [] false) with false by (now destruct i). ring.
Qed.

Lemma default_scaling_is_identity_witness :
  wf_matrix (promote_2d (Arr2 (mkMatrix 2 [[3; 4]; [5; 6]]))) /\
  unitscale_X (rnd := around_exact)
    (Arr2 (mkMatrix 2 [[3; 4]; [5; 6]])) [] [] None
    = Ok (promote_2d (Arr2 (mkMatrix 2 [[3; 4]; [5; 6]]))) /\
  inverse_unitscale_X (rnd := around_exact)
    (Arr2 (mkMatrix 2 [[3; 4]; [5; 6]])) [] [] None
    = Ok (promote_2d (Arr2 (mkMatrix 2 [[3; 4]; [5; 6]]))).
Proof.
  assert (Hw : wf_matrix (promote_2d (Arr2 (mkMatrix 2 [[3; 4]; [5; 6]]))))
    by (repeat constructor).
  split; [exact Hw|].
  exact (default_scaling_is_identity (rnd := around_exact) _ Hw).
Defined.

(** ** Round trips of the matrix transforms *)

(** With no column flagged and bounds that differ in every column, each
    matrix transform undoes the other. *)
Theorem unflagged_matrix_roundtrip {rnd : Around} (X : ndarray) (X_range : list (list R))
    (flags : list bool) :
  let X2 := promote_2d X in
  wf_matrix X2 ->
  ranges_fit X_range (n_cols X2) -> flags_fit flags (n_cols X2) ->
  (forall i, nth i flags false = false) ->
  (forall i, (i < n_cols X2)%nat ->
     fst (column_bounds X_range i) <> snd (column_bounds X_range i)) ->
  (exists U, unitscale_X X X_range flags None = Ok U /\
             inverse_unitscale_X (Arr2 U) X_range flags None = Ok X2) /\
  (exists V, inverse_unitscale_X X X_range flags None = Ok V /\
             unitscale_X (Arr2 V) X_range flags None = Ok X2).
Proof.
  intros X2 Hw Hr Hf Hoff Hne. subst X2. split.
  - destruct (unitscale_X_fit X X_range flags None Hr Hf)
      as (U & HU & Hc & Hn & HwU & He).
    assert (Hr' : ranges_fit X_range (n_cols (promote_2d (Arr2 U))))
      by (cbn [promote_2d]; rewrite Hc; assumption).
    assert (Hf' : flags_fit flags (n_cols (promote_2d (Arr2 U))))
      by (cbn [promote_2d]; rewrite Hc; assumption).
    destruct (inverse_unitscale_X_fit (Arr2 U) X_range flags None Hr' Hf')
      as (V & HV & Hc' & Hn' & HwV & He').
    cbn [promote_2d] in *.
    cbn [round_if] in HU, HV. exists U. split; [exact HU|].
    rewrite HV. f_equal. apply matrix_ext; [congruence | congruence | assumption | assumption | ].
    intros k i Hk Hi.
    rewrite He' by congruence. rewrite He by congruence.
    rewrite Hoff. field.
    rewrite Hc', Hc in Hi. specialize (Hne i Hi). lra.
  - destruct (inverse_unitscale_X_fit X X_range flags None Hr Hf)
      as (V & HV & Hc & Hn & HwV & He).
    assert (Hr' : ranges_fit X_range (n_cols (promote_2d (Arr2 V))))
      by (cbn [promote_2d]; rewrite Hc; assumption).
    assert (Hf' : flags_fit flags (n_cols (promote_2d (Arr2 V))))
      by (cbn [promote_2d]; rewrite Hc; assumption).
    destruct (unitscale_X_fit (Arr2 V) X_range flags None Hr' Hf')
      as (U & HU & Hc' & Hn' & HwU & He').
    cbn [promote_2d] in *.
    cbn [round_if] in HU, HV. exists V. split; [exact HV|].
    rewrite HU. f_equal. apply matrix_ext; [congruence | congruence | assumption | assumption | ].
    intros k i Hk Hi.
    rewrite He' by congruence. rewrite He by congruence.
    rewrite Hoff. field.
    rewrite Hc', Hc in Hi. specialize (Hne i Hi). lra.
Qed.

Lemma unflagged_matrix_roundtrip_witness :
  (exists U, unitscale_X (rnd := around_exact)
               (Arr1 [50]) [[0]; [100]] [] None = Ok U /\
             inverse_unitscale_X (rnd := around_exact)
               (Arr2 U) [[0]; [100]] [] None
               = Ok (promote_2d (Arr1 [50]))) /\
  (exists V, inverse_unitscale_X (rnd := around_exact)
               (Arr1 [50]) [[0]; [100]] [] None = Ok V /\
             unitscale_X (rnd := around_exact) (Arr2 V) [[0]; [100]] [] None
               = Ok (promote_2d (Arr1 [50]))).
Proof.
  apply (unflagged_matrix_roundtrip (rnd := around_exact)
           (Arr1 [50]) [[0]; [100]] []).
  - repeat constructor.
  - right. exists [0], [100], []. repeat split; auto.
  - left; reflexivity.
  - intros [|i]; reflexivity.
  - intros i Hi. cbv [n_cols promote_2d length] in Hi.
    assert (i = 0)%nat by lia. subst.
    cbv [column_bounds fst snd nth]. lra.
Defined.

(** With the default ranges the flagged round trip does hold: a column
    goes through [log10] and back through [10 **], whatever mix of flags,
    as long as the flagged columns hold positive numbers. *)
Theorem default_range_log_roundtrip {rnd : Around} (X : ndarray) (flags : list bool) :
  let X2 := promote_2d X in
  wf_matrix X2 -> flags_fit flags (n_cols X2) ->
  (forall k i, (k < n_rows X2)%nat -> (i < n_cols X2)%nat ->
     nth i flags false = true -> 0 < entry X2 k i) ->
  exists U, unitscale_X X [] flags None = Ok U /\
            inverse_unitscale_X (Arr2 U) [] flags None = Ok X2.
Proof.
  intros X2 Hw Hf Hpos. subst X2.
  assert (Hr : ranges_fit [] (n_cols (promote_2d X))) by (left; reflexivity).
  destruct (unitscale_X_fit X [] flags None Hr Hf)
    as (U & HU & Hc & Hn & HwU & He).
  assert (Hr' : ranges_fit [] (n_cols (promote_2d (Arr2 U))))
    by (left; reflexivity).
  assert (Hf' : flags_fit flags (n_cols (promote_2d (Arr2 U))))
    by (cbn [promote_2d]; rewrite Hc; assumption).
  destruct (inverse_unitscale_X_fit (Arr2 U) [] flags None Hr' Hf')
    as (V & HV & Hc' & Hn' & HwV & He').
  cbn [promote_2d] in *.
  cbn [round_if] in HU, HV. exists U. split; [exact HU|].
  rewrite HV. f_equal. apply matrix_ext; [congruence | congruence | assumption | assumption | ].
  intros k i Hk Hi.
  rewrite He' by congruence. rewrite He by congruence.
  cbn [column_bounds fst snd].
  destruct (nth i flags false) eqn:Hfl.
  - replace (0 + (1 - 0) * log10 ((entry (promote_2d X) k i - 0) / (1 - 0)))
      with (log10 (entry (promote_2d X) k i)).
    + apply pow10_log10. apply Hpos; auto; congruence.
    + replace ((entry (promote_2d X) k i - 0) / (1 - 0))
        with (entry (promote_2d X) k i) by field.
      ring.
  - field.
Qed.

Lemma default_range_log_roundtrip_witness :
  exists U, unitscale_X (rnd := around_exact)
              (Arr1 [100]) [] [true] None = Ok U /\
            inverse_unitscale_X (rnd := around_exact) (Arr2 U) [] [true] None
              = Ok (promote_2d (Arr1 [100])).
Proof.
  apply (default_range_log_roundtrip (rnd := around_exact) (Arr1 [100]) [true]).
  - repeat constructor.
  - right. cbn. lia.
  - intros k i Hk Hi _. cbv [n_rows n_cols promote_2d rows_of length] in Hk, Hi.
    assert (k = 0)%nat by lia. assert (i = 0)%nat by lia. subst.
    cbv [entry promote_2d rows_of nth]. lra.
Defined.

(** What the flagged inverse transform does undo: taking [log10] of the
    flagged columns first and scaling the result without flags, the bounds
    being read as bounds on the exponent. *)
Theorem log_first_roundtrip {rnd : Around} (X L : Matrix) (X_range : list (list R))
    (flags : list bool) :
  wf_matrix X -> wf_matrix L ->
  n_cols L = n_cols X -> n_rows L = n_rows X ->
  ranges_fit X_range (n_cols X) -> flags_fit flags (n_cols X) ->
  (forall i, (i < n_cols X)%nat ->
     fst (column_bounds X_range i) <> snd (column_bounds X_range i)) ->
  (forall k i, (k < n_rows X)%nat -> (i < n_cols X)%nat ->
     if nth i flags false
     then 0 < entry X k i /\ entry L k i = log10 (entry X k i)
     else entry L k i = entry X k i) ->
  exists U, unitscale_X (Arr2 L) X_range [] None = Ok U /\
            inverse_unitscale_X (Arr2 U) X_range flags None = Ok X.
Proof.
  intros Hw HwL HcL HnL Hr Hf Hne HL.
  assert (Hr0 : ranges_fit X_range (n_cols (promote_2d (Arr2 L))))
    by (cbn [promote_2d]; rewrite HcL; assumption).
  assert (Hf0 : flags_fit [] (n_cols (promote_2d (Arr2 L))))
    by (left; reflexivity).
  destruct (unitscale_X_fit (Arr2 L) X_range [] None Hr0 Hf0)
    as (U & HU & Hc & Hn & HwU & He).
  cbn [promote_2d] in *.
  assert (Hr' : ranges_fit X_range (n_cols (promote_2d (Arr2 U))))
    by (cbn [promote_2d]; rewrite Hc, HcL; assumption).
  assert (Hf' : flags_fit flags (n_cols (promote_2d (Arr2 U))))
    by (cbn [promote_2d]; rewrite Hc, HcL; assumption).
  destruct (inverse_unitscale_X_fit (Arr2 U) X_range flags None Hr' Hf')
    as (V & HV & Hc' & Hn' & HwV & He').
  cbn [promote_2d] in *.
  cbn [round_if] in HU, HV. exists U. split; [exact HU|].
  rewrite HV. f_equal. apply matrix_ext; [congruence | congruence | assumption | assumption | ].
  intros k i Hk Hi.
  assert (Hk' : (k < n_rows X)%nat) by congruence.
  assert (Hi' : (i < n_cols X)%nat) by congruence.
  rewrite He' by congruence. rewrite He by congruence.
  replace (nth i [] false) with false by (now destruct i).
  specialize (HL k i Hk' Hi'). specialize (Hne i Hi').
  set (lb := fst (column_bounds X_range i)) in *.
  set (rb := snd (column_bounds X_range i)) in *.
  destruct (nth i flags false).
  - destruct HL as [Hpos ->].
    replace (lb + (rb - lb) * ((log10 (entry X k i) - lb) / (rb - lb)))
      with (log10 (entry X k i)) by (field; lra).
    now apply pow10_log10.
  - rewrite HL. field. lra.
Qed.

Lemma log_first_roundtrip_witness :
  exists U,
    unitscale_X (rnd := around_exact)
      (Arr2 (mkMatrix 1 [[log10 100]])) [[0]; [4]] [] None = Ok U /\
    inverse_unitscale_X (rnd := around_exact) (Arr2 U) [[0]; [4]] [true] None
      = Ok (mkMatrix 1 [[100]]).
Proof.
  apply (log_first_roundtrip (rnd := around_exact)
           (mkMatrix 1 [[100]]) (mkMatrix 1 [[log10 100]])
           [[0]; [4]] [true]).
  - repeat constructor.
  - repeat constructor.
  - reflexivity.
  - reflexivity.
  - right. exists [0], [4], []. repeat split; auto.
  - right. cbn. lia.
  - intros i Hi. cbv [n_cols] in Hi. assert (i = 0)%nat by lia. subst.
    cbv [column_bounds fst snd nth]. lra.
  - intros k i Hk Hi. cbv [n_rows n_cols rows_of length] in Hk, Hi.
    assert (k = 0)%nat by lia. assert (i = 0)%nat by lia. subst.
    cbv [entry rows_of nth]. split; [lra | reflexivity].
Defined.

(** ** Ranges that numpy makes an array of *)

Lemma np_array2_ok_iff (l : list (list R)) :
  (exists A, np_array2 l = Ok A) <-> rectangular l.
Proof.
  unfold np_array2, rectangular.
  destruct (forallb (fun r => (length r =? length (hd [] l))%nat) l) eqn:E.
  - split; [intros _ | eauto].
    apply Forall_forall. intros r Hr.
    rewrite forallb_forall in E. now apply Nat.eqb_eq, E.
  - split; [intros (A & HA); discriminate|].
    intros H. rewrite Forall_forall in H.
    assert (E' : forallb (fun r => (length r =? length (hd [] l))%nat) l = true)
      by (apply forallb_forall; intros r Hr; apply Nat.eqb_eq; auto).
    congruence.
Qed.

(** ** Standardisation: what the result looks like *)






Lemma zip_with_nth (op : R -> R -> R) (a b : list R) (j : nat) :
  (j < length a)%nat -> (j < length b)%nat ->
  nth j (zip_with op a b) 0 = op (nth j a 0) (nth j b 0).
Proof.
  revert b j. induction a as [|x a IH]; intros [|y b] [|j] Ha Hb;
    cbn [length] in *; try lia; cbn [zip_with nth]; auto.
  apply IH; lia.
Qed.

Lemma zip_with_length (op : R -> R -> R) (a b : list R) :
  length a = length b -> length (zip_with op a b) = length a.
Proof.
  revert b. induction a as [|x a IH]; intros [|y b] H; cbn in *;
    try discriminate; auto.
Qed.










Lemma restandardize_row (r m s : list R) :
  length r = length m -> length m = length s -> Forall (fun x => x <> 0) s ->
  zip_with Rdiv (zip_with Rminus (zip_with Rplus (zip_with Rmult r s) m) m) s
    = r.
Proof.
  revert m s. induction r as [|x r IH]; intros [|y m] [|z s] Hm Hs Hnz;
    simpl in *; try discriminate; auto.
  inversion Hnz; subst. f_equal.
  - field. assumption.
  - apply IH; auto.
Qed.

(** Standardising with the mean and standard deviation that an array or a
    tensor was taken back to real units with gives it again. *)
Theorem inverse_then_standardize (Z : MatrixLike2d) (m s : list R) :
  wf_matrix (matrix_of Z) ->
  length m = n_cols (matrix_of Z) -> length s = n_cols (matrix_of Z) ->
  Forall (fun x => x <> 0) s ->
  exists Y,
    inverse_standardize_X Z m s = Ok (like Z Y) /\
    standardize_X (like Z Y) (Some m) (Some s) = Ok Z.
Proof.
  intros Hw Hm Hs Hnz.
  rewrite inverse_standardize_X_same_length by assumption.
  eexists. split; [reflexivity|].
  rewrite standardize_X_same_length
    by (rewrite matrix_of_like; cbn [n_cols]; assumption).
  rewrite matrix_of_like, like_like. cbn [n_cols rows_of]. f_equal.
  assert (E : mkMatrix (n_cols (matrix_of Z))
                (map (fun r => zip_with Rdiv (zip_with Rminus r m) s)
                   (map (fun r => zip_with Rplus (zip_with Rmult r s) m)
                      (rows_of (matrix_of Z))))
              = matrix_of Z).
  { destruct (matrix_of Z) as [c rows].
    cbn [n_cols rows_of] in *. f_equal. rewrite !map_map.
    transitivity (map (fun r : list R => r) rows); [|apply map_id].
    apply map_ext_in. intros r Hr.
    unfold wf_matrix in Hw. rewrite Forall_forall in Hw.
    pose proof (Hw r Hr) as Hlen. cbn [n_cols] in Hlen.
    apply restandardize_row; auto; congruence. }
  rewrite E. apply like_matrix_of.
Qed.

Lemma inverse_then_standardize_witness :
  let Z := NdArray (mkMatrix 1 [[-1]; [1]]) in
  exists Y,
    inverse_standardize_X Z [2] [3] = Ok (like Z Y) /\
    standardize_X (like Z Y) (Some [2]) (Some [3]) = Ok Z.
Proof.
  apply (inverse_then_standardize (NdArray (mkMatrix 1 [[-1]; [1]])) [2] [3]).
  - repeat constructor.
  - reflexivity.
  - reflexivity.
  - repeat constructor. lra.
Defined.

(** ** The mesh: its grids and its edge cases *)

Lemma index2_entry (M : Matrix) (i j : nat) (a : R) :
  index2 M i j = Ok a -> entry M i j = a.
Proof.
  unfold index2, entry, index. intros H.
  destruct (nth_error (rows_of M) i) as [r|] eqn:Er; cbn [bind] in H;
    [|discriminate].
  destruct (nth_error r j) as [x|] eqn:Ex; [|discriminate].
  injection H as <-.
  rewrite (nth_error_nth _ _ [] Er). now apply nth_error_nth.
Qed.

Lemma create_2D_mesh_grids_eq (n : Z) (Xt : ndarray) (X1 X2 : Matrix) :
  create_2D_mesh n = Ok (Xt, X1, X2) ->
  exists xs, np_linspace 0 1 n = Ok xs /\ np_meshgrid_xy xs xs = (X1, X2).
Proof.
  unfold create_2D_mesh. cbv zeta. intros H.
  apply bind_ok in H as (x1 & H1 & H).
  apply bind_ok in H as (x2 & H2 & H).
  assert (x2 = x1) by congruence. subst x2.
  exists x1. split; [exact H1|].
  destruct (np_meshgrid_xy x1 x1) as [G1 G2].
  apply bind_ok in H as (rows & _ & H). now injection H as _ <- <-.
Qed.

Lemma meshgrid_wf (xs : list R) :
  wf_matrix (fst (np_meshgrid_xy xs xs)) /\
  wf_matrix (snd (np_meshgrid_xy xs xs)) /\
  n_rows (fst (np_meshgrid_xy xs xs)) = length xs /\
  n_rows (snd (np_meshgrid_xy xs xs)) = length xs /\
  n_cols (fst (np_meshgrid_xy xs xs)) = length xs /\
  n_cols (snd (np_meshgrid_xy xs xs)) = length xs.
Proof.
  unfold np_meshgrid_xy, wf_matrix, n_rows; cbn [fst snd n_cols rows_of].
  rewrite !length_map. repeat split.
  - apply Forall_forall. intros r Hr.
    now apply in_map_iff in Hr as (b & <- & _).
  - apply Forall_forall. intros r Hr.
    apply in_map_iff in Hr as (b & <- & _). apply repeat_length.
Qed.

Lemma grid_point_ends (n : nat) :
  grid_point n 0 = 0 /\ ((2 <= n)%nat -> grid_point n (n - 1) = 1).
Proof.
  unfold grid_point. split.
  - destruct (n <=? 1)%nat; [reflexivity|]. cbn [INR]. unfold Rdiv. ring.
  - intros Hn. destruct (Nat.leb_spec n 1); [lia|].
    field. apply not_0_INR. lia.
Qed.

Lemma create_2D_mesh_full (n : nat) :
  (1 <= n)%nat ->
  exists rows X1 X2,
    create_2D_mesh (Z.of_nat n) = Ok (Arr2 (mkMatrix 2 rows), X1, X2) /\
    length rows = (n * n)%nat /\
    n_rows X1 = n /\ n_cols X1 = n /\ n_rows X2 = n /\ n_cols X2 = n /\
    wf_matrix X1 /\ wf_matrix X2 /\
    forall i j, (i < n)%nat -> (j < n)%nat ->
      entry X1 i j = grid_point n j /\
      entry X2 i j = grid_point n i /\
      nth_error rows (i * n + j) = Some [grid_point n j; grid_point n i].
Proof.
  intros Hn.
  destruct (create_2D_mesh_result n Hn) as (rows & X1 & X2 & H & Hl & Hp).
  destruct (create_2D_mesh_grids_eq _ _ _ _ H) as (xs & Hxs & Hmesh).
  destruct (np_linspace_unit n Hn) as (xs' & Hxs' & Hlen & Hnth).
  assert (xs' = xs) by congruence. subst xs'.
  destruct (meshgrid_wf xs) as (W1 & W2 & R1 & R2 & C1 & C2).
  rewrite Hmesh in *. cbn [fst snd] in *.
  exists rows, X1, X2. split; [exact H|].
  repeat (split; [solve [auto | congruence]|]).
  intros i j Hi Hj.
  destruct (meshgrid_index xs i j) as [H1 H2]; try lia.
  rewrite Hmesh in H1, H2. cbn [fst snd] in H1, H2.
  apply index2_entry in H1, H2.
  rewrite H1, H2, !Hnth by lia. repeat split. now apply Hp.
Qed.

(** The two grids returned with the pairs: both are [n] by [n]; along a row
    [X1] runs through the grid points and [X2] stays put, down a column it
    is the other way round; pair [i * n + j] is made of their entries
    [(i, j)]; the grid points start at 0 and, from two points on, end
    at 1. *)
Theorem create_2D_mesh_grids (n : nat) :
  (1 <= n)%nat ->
  exists rows X1 X2,
    create_2D_mesh (Z.of_nat n) = Ok (Arr2 (mkMatrix 2 rows), X1, X2) /\
    shape (Arr2 X1) = [n; n] /\ shape (Arr2 X2) = [n; n] /\
    wf_matrix X1 /\ wf_matrix X2 /\
    (forall i j, (i < n)%nat -> (j < n)%nat ->
       entry X1 i j = grid_point n j /\
       entry X2 i j = grid_point n i /\
       nth_error rows (i * n + j) = Some [entry X1 i j; entry X2 i j]) /\
    grid_point n 0 = 0 /\ ((2 <= n)%nat -> grid_point n (n - 1) = 1).
Proof.
  intros Hn.
  destruct (create_2D_mesh_full n Hn)
    as (rows & X1 & X2 & H & _ & R1 & C1 & R2 & C2 & W1 & W2 & Hp).
  exists rows, X1, X2. split; [exact H|].
  cbn [shape]. rewrite R1, R2, C1, C2.
  repeat (split; [solve [auto]|]).
  split; [|apply grid_point_ends].
  intros i j Hi Hj. destruct (Hp i j Hi Hj) as (E1 & E2 & E3).
  rewrite E1, E2. auto.
Qed.

Lemma create_2D_mesh_grids_witness :
  exists rows X1 X2,
    create_2D_mesh (Z.of_nat 3) = Ok (Arr2 (mkMatrix 2 rows), X1, X2) /\
    shape (Arr2 X1) = [3; 3]%nat /\ shape (Arr2 X2) = [3; 3]%nat /\
    wf_matrix X1 /\ wf_matrix X2 /\
    (forall i j, (i < 3)%nat -> (j < 3)%nat ->
       entry X1 i j = grid_point 3 j /\
       entry X2 i j = grid_point 3 i /\
       nth_error rows (i * 3 + j) = Some [entry X1 i j; entry X2 i j]) /\
    grid_point 3 0 = 0 /\ ((2 <= 3)%nat -> grid_point 3 (3 - 1) = 1).
Proof.
  apply (create_2D_mesh_grids 3). lia.
Defined.

(** A negative mesh size is refused with a value error; the mesh size 0
    gives a 1-D array without entries in place of the pairs, and two grids
    without rows. *)
Theorem create_2D_mesh_edge_sizes (n : Z) :
  ((n < 0)%Z -> create_2D_mesh n = Raise ValueError) /\
  (n = 0%Z -> create_2D_mesh n = Ok (Arr1 [], mkMatrix 0 [], mkMatrix 0 [])).
Proof.
  split.
  - intros Hn. unfold create_2D_mesh, np_linspace. cbv zeta.
    destruct (Z.ltb_spec n 0); [reflexivity | lia].
  - intros ->. reflexivity.
Qed.

Lemma create_2D_mesh_edge_sizes_witness :
  ((-1 < 0)%Z /\ create_2D_mesh (-1) = Raise ValueError) /\
  (0%Z = 0%Z /\
   create_2D_mesh 0 = Ok (Arr1 [], mkMatrix 0 [], mkMatrix 0 [])).
Proof.
  split.
  - assert (H : (-1 < 0)%Z) by lia. split; [exact H|].
    exact (proj1 (create_2D_mesh_edge_sizes (-1)) H).
  - split; [reflexivity|].
    exact (proj2 (create_2D_mesh_edge_sizes 0) eq_refl).
Defined.

(** ** The plotting helpers *)

Lemma map_entries (f : R -> R) (M : Matrix) (k i : nat) :
  wf_matrix M -> (k < n_rows M)%nat -> (i < n_cols M)%nat ->
  entry (mkMatrix (n_cols M) (map (map f) (rows_of M))) k i = f (entry M k i).
Proof.
  intros Hw Hk Hi. unfold entry; cbn [rows_of].
  assert (Hrow : length (nth k (rows_of M) []) = n_cols M).
  { unfold wf_matrix in Hw. rewrite Forall_forall in Hw. apply Hw, nth_In, Hk. }
  rewrite (nth_indep _ [] (map f [])) by (now rewrite length_map).
  rewrite (map_nth (map f) (rows_of M) [] k).
  rewrite (nth_indep _ 0 (f 0)) by (rewrite length_map; lia).
  apply map_nth.
Qed.

Lemma inverse_unitscale_xv_grid_spec (xv : Matrix) (r : list R) (lb rb : R) :
  nth_error r 0 = Some lb -> nth_error r 1 = Some rb ->
  inverse_unitscale_xv_grid xv r =
    Ok (mkMatrix (n_cols xv)
          (map (map (fun x => lb + (rb - lb) * x)) (rows_of xv))).
Proof.
  intros H0 H1. unfold inverse_unitscale_xv_grid.
  now rewrite (index_ok _ _ _ H0), (index_ok _ _ _ H1).
Qed.

Lemma transform_plot2D_X_result (X1 X2 : Matrix) (lows highs : list R)
    (rest : list (list R)) :
  Forall (fun r => length r = length lows) (highs :: rest) ->
  (2 <= length lows)%nat ->
  transform_plot2D_X X1 X2 (lows :: highs :: rest) =
    Ok (mkMatrix (n_cols X1)
          (map (map (fun x => nth 0 lows 0
                              + (nth 0 highs 0 - nth 0 lows 0) * x))
             (rows_of X1)),
        mkMatrix (n_cols X2)
          (map (map (fun x => nth 1 lows 0
                              + (nth 1 highs 0 - nth 1 lows 0) * x))
             (rows_of X2))).
Proof.
  intros Hrect Hlen.
  destruct (ranges_by_column_supplied lows highs rest 0 Hrect)
    as (ranges & Hranges & Hnth).
  destruct (Hnth 0%nat) as (r0 & Hr0 & H00 & H01); [lia|].
  destruct (Hnth 1%nat) as (r1 & Hr1 & H10 & H11); [lia|].
  unfold transform_plot2D_X.
  change (np_array_T (lows :: highs :: rest))
    with (ranges_by_column (lows :: highs :: rest) 0).
  rewrite Hranges. cbn [bind].
  rewrite (index_ok _ _ _ Hr0). cbn [bind].
  rewrite (inverse_unitscale_xv_grid_spec X1 r0 _ _ H00 H01). cbn [bind].
  rewrite (index_ok _ _ _ Hr1). cbn [bind].
  rewrite (inverse_unitscale_xv_grid_spec X2 r1 _ _ H10 H11). reflexivity.
Qed.

(** Given the ranges as a row of lower and a row of upper bounds for at
    least two variables, the first grid is scaled with the first variable's
    bounds and the second grid with the second variable's, entry by entry,
    and both keep their shape. *)
Theorem transform_plot2D_X_entries (X1 X2 : Matrix) (lows highs : list R)
    (rest : list (list R)) :
  wf_matrix X1 -> wf_matrix X2 ->
  Forall (fun r => length r = length lows) (highs :: rest) ->
  (2 <= length lows)%nat ->
  exists P1 P2,
    transform_plot2D_X X1 X2 (lows :: highs :: rest) = Ok (P1, P2) /\
    shape (Arr2 P1) = shape (Arr2 X1) /\ shape (Arr2 P2) = shape (Arr2 X2) /\
    (forall k i, (k < n_rows X1)%nat -> (i < n_cols X1)%nat ->
       entry P1 k i =
         nth 0 lows 0 + (nth 0 highs 0 - nth 0 lows 0) * entry X1 k i) /\
    (forall k i, (k < n_rows X2)%nat -> (i < n_cols X2)%nat ->
       entry P2 k i =
         nth 1 lows 0 + (nth 1 highs 0 - nth 1 lows 0) * entry X2 k i).
Proof.
  intros W1 W2 Hrect Hlen.
  rewrite (transform_plot2D_X_result X1 X2 lows highs rest Hrect Hlen).
  eexists _, _. split; [reflexivity|].
  unfold shape, n_rows; cbn [n_cols rows_of]. rewrite !length_map.
  split; [reflexivity|]. split; [reflexivity|].
  split; intros k i Hk Hi;
    [apply (map_entries (fun x => nth 0 lows 0
                                  + (nth 0 highs 0 - nth 0 lows 0) * x) X1)
    |apply (map_entries (fun x => nth 1 lows 0
                                  + (nth 1 highs 0 - nth 1 lows 0) * x) X2)];
    assumption.
Qed.

Lemma transform_plot2D_X_entries_witness :
  exists P1 P2,
    transform_plot2D_X (mkMatrix 1 [[1 / 2]]) (mkMatrix 1 [[1]])
      [[0; 10]; [100; 20]] = Ok (P1, P2) /\
    shape (Arr2 P1) = shape (Arr2 (mkMatrix 1 [[1 / 2]])) /\
    shape (Arr2 P2) = shape (Arr2 (mkMatrix 1 [[1]])) /\
    (forall k i, (k < 1)%nat -> (i < 1)%nat ->
       entry P1 k i =
         nth 0 [0; 10] 0 + (nth 0 [100; 20] 0 - nth 0 [0; 10] 0)
                           * entry (mkMatrix 1 [[1 / 2]]) k i) /\
    (forall k i, (k < 1)%nat -> (i < 1)%nat ->
       entry P2 k i =
         nth 1 [0; 10] 0 + (nth 1 [100; 20] 0 - nth 1 [0; 10] 0)
                           * entry (mkMatrix 1 [[1]]) k i).
Proof.
  apply (transform_plot2D_X_entries (mkMatrix 1 [[1 / 2]]) (mkMatrix 1 [[1]])
           [0; 10] [100; 20] []).
  - repeat constructor.
  - repeat constructor.
  - repeat constructor.
  - cbn. lia.
Defined.

(** Ranges for fewer than two variables, or with no row of upper bounds,
    make the plotting transform fail with an index error. *)
Theorem transform_plot2D_X_short_ranges (X1 X2 : Matrix)
    (X_range : list (list R)) :
  X_range = [] \/ rectangular X_range ->
  (length X_range < 2)%nat \/ (length (hd [] X_range) < 2)%nat ->
  transform_plot2D_X X1 X2 X_range = Raise IndexError.
Proof.
  intros Hrect Hshort. unfold transform_plot2D_X.
  destruct X_range as [|row rest]; [reflexivity|].
  destruct Hrect as [Hrect|Hrect]; [discriminate|].
  unfold np_array_T.
  destruct (proj2 (np_array2_ok_iff (row :: rest)) Hrect) as (A & HA).
  rewrite HA. cbn [bind].
  unfold np_array2 in HA. cbn [hd] in HA.
  destruct (forallb _ (row :: rest)); [|discriminate]. injection HA as <-.
  unfold np_transpose; cbn [rows_of n_cols hd length] in *.
  destruct row as [|a [|b row]]; cbn [length seq map].
  - reflexivity.
  - cbn [index nth_error bind column map nth inverse_unitscale_xv_grid].
    destruct rest as [|r2 rest]; reflexivity.
  - destruct Hshort as [H|H]; [|cbn in H; lia].
    destruct rest as [|r2 rest]; [reflexivity | cbn in H; lia].
Qed.

Lemma transform_plot2D_X_short_ranges_witness :
  ([[0; 100]] = [] \/ rectangular [[0; 100]]) /\
  ((length [[0; 100]] < 2)%nat \/ (length (hd [] [[0; 100]]) < 2)%nat) /\
  transform_plot2D_X (mkMatrix 1 [[1]]) (mkMatrix 1 [[1]]) [[0; 100]]
    = Raise IndexError.
Proof.
  assert (H1 : [[0; 100]] = [] \/ rectangular [[0; 100]])
    by (right; repeat constructor).
  assert (H2 : (length [[0; 100]] < 2)%nat \/
               (length (hd [] [[0; 100]]) < 2)%nat) by (left; cbn; lia).
  split; [exact H1|]. split; [exact H2|].
  exact (transform_plot2D_X_short_ranges _ _ _ H1 H2).
Defined.

(** The plotting grids agree with the test points taken to real units:
    scaling the pairs of the mesh back with [inverse_unitscale_X] gives, at
    place [i * n + j], the entries [(i, j)] of the two grids that
    [transform_plot2D_X] returns for the same ranges. *)
Theorem plot_grids_match_scaled_pairs {rnd : Around} (n : nat) (lows highs : list R)
    (rest : list (list R)) :
  (1 <= n)%nat ->
  Forall (fun r => length r = length lows) (highs :: rest) ->
  (2 <= length lows)%nat ->
  exists Xt X1 X2 P1 P2 V,
    create_2D_mesh (Z.of_nat n) = Ok (Xt, X1, X2) /\
    transform_plot2D_X X1 X2 (lows :: highs :: rest) = Ok (P1, P2) /\
    inverse_unitscale_X Xt (lows :: highs :: rest) [] None = Ok V /\
    forall i j, (i < n)%nat -> (j < n)%nat ->
      entry V (i * n + j) 0 = entry P1 i j /\
      entry V (i * n + j) 1 = entry P2 i j.
Proof.
  intros Hn Hrect Hlen.
  destruct (create_2D_mesh_full n Hn)
    as (rows & X1 & X2 & H & Hl & R1 & C1 & R2 & C2 & W1 & W2 & Hp).
  set (X_range := lows :: highs :: rest).
  assert (Hr : ranges_fit X_range (n_cols (promote_2d (Arr2 (mkMatrix 2 rows))))).
  { right. exists lows, highs, rest. repeat split; auto. }
  assert (Hf : flags_fit [] (n_cols (promote_2d (Arr2 (mkMatrix 2 rows)))))
    by (left; reflexivity).
  destruct (inverse_unitscale_X_fit (Arr2 (mkMatrix 2 rows)) X_range [] None
              Hr Hf) as (V & HV & _ & _ & _ & He).
  cbn [round_if promote_2d n_cols] in HV, He.
  exists (Arr2 (mkMatrix 2 rows)), X1, X2.
  eexists _, _, V. split; [exact H|].
  split; [apply transform_plot2D_X_result; assumption|].
  split; [exact HV|].
  intros i j Hi Hj. destruct (Hp i j Hi Hj) as (E1 & E2 & E3).
  assert (Hk : (i * n + j < n_rows (mkMatrix 2 rows))%nat).
  { unfold n_rows; cbn [rows_of]. rewrite Hl. nia. }
  assert (Hrow : nth (i * n + j) rows [] = [grid_point n j; grid_point n i])
    by (now apply nth_error_nth).
  assert (Ea : entry (mkMatrix 2 rows) (i * n + j) 0 = grid_point n j)
    by (unfold entry; cbn [rows_of]; rewrite Hrow; reflexivity).
  assert (Eb : entry (mkMatrix 2 rows) (i * n + j) 1 = grid_point n i)
    by (unfold entry; cbn [rows_of]; rewrite Hrow; reflexivity).
  rewrite !He by (auto; lia). cbn [nth].
  unfold X_range; cbn [column_bounds fst snd]. rewrite Ea, Eb.
  rewrite (map_entries
             (fun x => nth 0 lows 0 + (nth 0 highs 0 - nth 0 lows 0) * x) X1)
    by (auto; lia).
  rewrite (map_entries
             (fun x => nth 1 lows 0 + (nth 1 highs 0 - nth 1 lows 0) * x) X2)
    by (auto; lia).
  now rewrite E1, E2.
Qed.

Lemma plot_grids_match_scaled_pairs_witness :
  exists Xt X1 X2 P1 P2 V,
    create_2D_mesh (Z.of_nat 2) = Ok (Xt, X1, X2) /\
    transform_plot2D_X X1 X2 [[0; 10]; [100; 20]] = Ok (P1, P2) /\
    inverse_unitscale_X (rnd := around_exact)
      Xt [[0; 10]; [100; 20]] [] None = Ok V /\
    forall i j, (i < 2)%nat -> (j < 2)%nat ->
      entry V (i * 2 + j) 0 = entry P1 i j /\
      entry V (i * 2 + j) 1 = entry P2 i j.
Proof.
  apply (plot_grids_match_scaled_pairs (rnd := around_exact)
           2 [0; 10] [100; 20] []).
  - lia.
  - repeat constructor.
  - cbn. lia.
Defined.

(** ** Reshaping a column of responses onto the mesh *)

Lemma chunks_wf (r c : nat) (l : list R) :
  (r * c <= length l)%nat ->
  length (chunks r c l) = r /\ Forall (fun row => length row = c) (chunks r c l).
Proof.
  revert l. induction r as [|r IH]; intros l H; cbn [chunks length].
  - split; auto.
  - destruct (IH (skipn c l)) as [IH1 IH2].
    + rewrite length_skipn. cbn in H. lia.
    + split; [now rewrite IH1|]. constructor; auto.
      rewrite length_firstn. cbn in H. lia.
Qed.

Lemma chunks_nth (r c : nat) (l : list R) (i j : nat) :
  (i < r)%nat -> (j < c)%nat ->
  nth j (nth i (chunks r c l) []) 0 = nth (i * c + j) l 0.
Proof.
  revert l i. induction r as [|r IH]; intros l i Hi Hj; [lia|].
  cbn [chunks]. destruct i as [|i]; cbn [nth].
  - rewrite nth_firstn. destruct (Nat.ltb_spec j c); [reflexivity | lia].
  - rewrite IH by lia. rewrite nth_skipn. f_equal. cbn. lia.
Qed.

Lemma concat_single_column (rows : list (list R)) :
  Forall (fun r => length r = 1%nat) rows -> concat rows = column 0 rows.
Proof.
  induction 1 as [|r rows Hr _ IH]; cbn [concat column map]; auto.
  destruct r as [|x [|y r]]; try discriminate.
  cbn [app nth]. f_equal. exact IH.
Qed.

Lemma transform_plot2D_Y_flat (X : Matrix) (m s : R) (size : Z) :
  wf_matrix X -> n_cols X = 1%nat ->
  transform_plot2D_Y X [m] [s] size =
    np_reshape_square
      (mkMatrix 1 (map (map (fun x => x * s + m)) (rows_of X))) size.
Proof.
  intros Hw Hc. unfold transform_plot2D_Y, inverse_standardize_X.
  rewrite torch_broadcast_rows_same_length by (cbn; congruence). cbn [bind].
  rewrite torch_broadcast_rows_same_length by (cbn; congruence).
  cbn [bind n_cols rows_of]. rewrite Hc, map_map. do 2 f_equal.
  apply map_ext_in. intros r Hr.
  unfold wf_matrix in Hw. rewrite Forall_forall in Hw.
  pose proof (Hw r Hr) as Hlen. rewrite Hc in Hlen.
  destruct r as [|x [|y r]]; try discriminate. reflexivity.
Qed.

Lemma scaled_column_flat (X : Matrix) (m s : R) :
  wf_matrix X -> n_cols X = 1%nat ->
  concat (map (map (fun x => x * s + m)) (rows_of X))
    = map (fun x => x * s + m) (column 0 (rows_of X)).
Proof.
  intros Hw Hc. rewrite concat_single_column.
  - unfold column. rewrite !map_map. apply map_ext_in. intros r Hr.
    unfold wf_matrix in Hw. rewrite Forall_forall in Hw.
    pose proof (Hw r Hr) as Hlen. rewrite Hc in Hlen.
    destruct r as [|x [|y r]]; try discriminate. reflexivity.
  - apply Forall_forall. intros r Hr.
    apply in_map_iff in Hr as (r0 & <- & Hr0). rewrite length_map.
    unfold wf_matrix in Hw. rewrite Forall_forall in Hw.
    rewrite (Hw r0 Hr0). exact Hc.
Qed.

Lemma transform_plot2D_Y_result (X : Matrix) (m s : R) (n : nat) :
  wf_matrix X -> n_cols X = 1%nat -> n_rows X = (n * n)%nat ->
  transform_plot2D_Y X [m] [s] (Z.of_nat n) =
    Ok (mkMatrix n
          (chunks n n (map (fun x => x * s + m) (column 0 (rows_of X))))).
Proof.
  intros Hw Hc Hn. rewrite transform_plot2D_Y_flat by assumption.
  unfold np_reshape_square. cbn [rows_of].
  destruct (Z.ltb_spec (Z.of_nat n) 0); [lia|].
  rewrite Nat2Z.id, scaled_column_flat by assumption.
  rewrite length_map, column_length. fold (n_rows X).
  now rewrite Hn, Nat.eqb_refl.
Qed.

Lemma reshaped_entry (f : R -> R) (X : Matrix) (n i j : nat) :
  n_rows X = (n * n)%nat -> (i < n)%nat -> (j < n)%nat ->
  entry (mkMatrix n (chunks n n (map f (column 0 (rows_of X))))) i j
    = f (entry X (i * n + j) 0).
Proof.
  intros Hn Hi Hj. unfold entry at 1; cbn [rows_of].
  rewrite chunks_nth by assumption.
  rewrite (nth_indep _ 0 (f 0))
    by (rewrite length_map, column_length; fold (n_rows X); nia).
  rewrite (map_nth f). now rewrite column_nth.
Qed.

(** A one-column tensor of [n * n] responses is taken back to real units
    and laid out on an [n] by [n] grid row by row: entry [(i, j)] is
    response [i * n + j] times the standard deviation plus the mean. *)
Theorem transform_plot2D_Y_grid (X : Matrix) (m s : R) (n : nat) :
  wf_matrix X -> n_cols X = 1%nat -> n_rows X = (n * n)%nat ->
  exists G,
    transform_plot2D_Y X [m] [s] (Z.of_nat n) = Ok G /\
    shape (Arr2 G) = [n; n] /\ wf_matrix G /\
    forall i j, (i < n)%nat -> (j < n)%nat ->
      entry G i j = entry X (i * n + j) 0 * s + m.
Proof.
  intros Hw Hc Hn.
  rewrite (transform_plot2D_Y_result X m s n Hw Hc Hn).
  eexists. split; [reflexivity|].
  assert (Hlen : (n * n <= length (map (fun x => (x * s + m)%R)
                                     (column 0 (rows_of X))))%nat).
  { rewrite length_map, column_length. fold (n_rows X). lia. }
  destruct (chunks_wf n n _ Hlen) as [L W].
  unfold shape, n_rows, wf_matrix; cbn [n_cols rows_of]. rewrite L.
  split; [reflexivity|]. split; [exact W|].
  intros i j Hi Hj.
  now apply (reshaped_entry (fun x => x * s + m) X n i j).
Qed.

Lemma transform_plot2D_Y_grid_witness :
  exists G,
    transform_plot2D_Y (mkMatrix 1 [[1]; [2]; [3]; [4]]) [10] [2] (Z.of_nat 2)
      = Ok G /\
    shape (Arr2 G) = [2; 2]%nat /\ wf_matrix G /\
    forall i j, (i < 2)%nat -> (j < 2)%nat ->
      entry G i j
        = entry (mkMatrix 1 [[1]; [2]; [3]; [4]]) (i * 2 + j) 0 * 2 + 10.
Proof.
  apply (transform_plot2D_Y_grid (mkMatrix 1 [[1]; [2]; [3]; [4]]) 10 2 2).
  - repeat constructor.
  - reflexivity.
  - reflexivity.
Defined.

(** A negative mesh size, or a column whose number of responses is not the
    square of the mesh size, is refused with a value error. *)
Theorem transform_plot2D_Y_wrong_size (X : Matrix) (m s : R) (size : Z) :
  wf_matrix X -> n_cols X = 1%nat ->
  (size < 0)%Z \/ n_rows X <> (Z.to_nat size * Z.to_nat size)%nat ->
  transform_plot2D_Y X [m] [s] size = Raise ValueError.
Proof.
  intros Hw Hc Hbad. rewrite transform_plot2D_Y_flat by assumption.
  unfold np_reshape_square. cbn [rows_of].
  destruct (Z.ltb_spec size 0) as [|Hpos]; [reflexivity|].
  destruct Hbad as [|Hbad]; [lia|].
  rewrite scaled_column_flat, length_map, column_length by assumption.
  fold (n_rows X).
  destruct (Nat.eqb_spec (n_rows X) (Z.to_nat size * Z.to_nat size));
    [contradiction | reflexivity].
Qed.

Lemma transform_plot2D_Y_wrong_size_witness :
  transform_plot2D_Y (mkMatrix 1 [[1]; [2]; [3]]) [10] [2] 2%Z
    = Raise ValueError.
Proof.
  apply (transform_plot2D_Y_wrong_size (mkMatrix 1 [[1]; [2]; [3]]) 10 2 2%Z).
  - repeat constructor.
  - reflexivity.
  - right. cbn. lia.
Defined.

Lemma standardize_X_one_column (Y : Matrix) :
  wf_matrix Y -> n_cols Y = 1%nat ->
  let m := mean (column 0 (rows_of Y)) in
  let s := torch_std (column 0 (rows_of Y)) in
  mean0 (Tensor Y) = [m] /\ std0 (Tensor Y) = [s] /\
  standardize_X (Tensor Y) None None =
    Ok (Tensor (mkMatrix 1 (map (map (fun y => (y - m) / s)) (rows_of Y)))).
Proof.
  intros Hw Hc. cbv zeta.
  assert (Em : mean0 (Tensor Y) = [mean (column 0 (rows_of Y))])
    by (unfold mean0, np_mean0; cbn [matrix_of]; rewrite Hc; reflexivity).
  assert (Es : std0 (Tensor Y) = [torch_std (column 0 (rows_of Y))])
    by (unfold std0, torch_std0; rewrite Hc; reflexivity).
  split; [exact Em|]. split; [exact Es|].
  rewrite standardize_X_omitted_statistics, standardize_X_same_length
    by (rewrite ?Em, ?Es; cbn [matrix_of length]; congruence).
  rewrite Em, Es. cbn [like matrix_of]. rewrite Hc. do 3 f_equal.
  apply map_ext_in. intros r Hr.
  unfold wf_matrix in Hw. rewrite Forall_forall in Hw.
  pose proof (Hw r Hr) as Hlen. rewrite Hc in Hlen.
  destruct r as [|x [|y r]]; try discriminate. reflexivity.
Qed.

(** Responses computed on the mesh pairs and held in a one-column tensor,
    standardised, and handed to [transform_plot2D_Y] with their own mean
    and standard deviation (the sample value, as the responses are a
    tensor) come back unchanged and in place: entry [(i, j)] of the grid is
    the response of pair [i * n + j], the pair made of the entries [(i, j)]
    of the two mesh grids. *)
Theorem standardized_responses_on_mesh (n : nat) (Y : Matrix) :
  (2 <= n)%nat ->
  wf_matrix Y -> n_cols Y = 1%nat -> n_rows Y = (n * n)%nat ->
  Forall (fun s => s <> 0) (std0 (Tensor Y)) ->
  exists Z G rows X1 X2,
    create_2D_mesh (Z.of_nat n) = Ok (Arr2 (mkMatrix 2 rows), X1, X2) /\
    standardize_X (Tensor Y) None None = Ok (Tensor Z) /\
    transform_plot2D_Y Z (mean0 (Tensor Y)) (std0 (Tensor Y)) (Z.of_nat n)
      = Ok G /\
    forall i j, (i < n)%nat -> (j < n)%nat ->
      entry G i j = entry Y (i * n + j) 0 /\
      nth_error rows (i * n + j) = Some [entry X1 i j; entry X2 i j].
Proof.
  intros Hn Hw Hc Hr Hnz.
  destruct (standardize_X_one_column Y Hw Hc) as (Em & Es & HZ).
  set (m := mean (column 0 (rows_of Y))) in *.
  set (s := torch_std (column 0 (rows_of Y))) in *.
  assert (Hs : s <> 0).
  { rewrite Es in Hnz. now inversion Hnz. }
  set (Zm := mkMatrix 1 (map (map (fun y => (y - m) / s)) (rows_of Y))) in *.
  assert (WZ : wf_matrix Zm).
  { unfold Zm, wf_matrix; cbn [n_cols rows_of]. apply Forall_forall.
    intros r Hr'. apply in_map_iff in Hr' as (r0 & <- & Hr0).
    rewrite length_map. unfold wf_matrix in Hw. rewrite Forall_forall in Hw.
    rewrite (Hw r0 Hr0). exact Hc. }
  assert (RZ : n_rows Zm = (n * n)%nat)
    by (unfold Zm, n_rows; cbn [rows_of]; rewrite length_map; exact Hr).
  assert (Hn1 : (1 <= n)%nat) by lia.
  destruct (create_2D_mesh_full n Hn1)
    as (rows & X1 & X2 & H & _ & _ & _ & _ & _ & _ & _ & Hp).
  exists Zm. eexists. exists rows, X1, X2.
  split; [exact H|]. split; [exact HZ|].
  split; [rewrite Em, Es;
          apply (transform_plot2D_Y_result Zm m s n WZ eq_refl RZ)|].
  intros i j Hi Hj.
  destruct (Hp i j Hi Hj) as (E1 & E2 & E3). rewrite E1, E2.
  split; [|exact E3].
  rewrite (reshaped_entry (fun x => x * s + m) Zm n i j RZ Hi Hj).
  assert (Hk : (i * n + j < n_rows Y)%nat) by (rewrite Hr; nia).
  assert (Hcol : (0 < n_cols Y)%nat) by lia.
  replace (entry Zm (i * n + j) 0)
    with ((entry Y (i * n + j) 0 - m) / s).
  - field. exact Hs.
  - symmetry. unfold Zm. rewrite <- Hc at 1.
    now apply (map_entries (fun y => (y - m) / s) Y).
Qed.

Lemma torch_std_1_3_1_3 : torch_std [1; 3; 1; 3] = sqrt (4 / 3).
Proof.
  assert (Hm : mean [1; 3; 1; 3] = 2) by (unfold mean, sum; simpl; lra).
  unfold torch_std. rewrite Hm. f_equal.
  unfold sum, Rsqr; simpl; lra.
Qed.

Lemma standardized_responses_on_mesh_witness :
  let Y := mkMatrix 1 [[1]; [3]; [1]; [3]] in
  exists Z G rows X1 X2,
    create_2D_mesh (Z.of_nat 2) = Ok (Arr2 (mkMatrix 2 rows), X1, X2) /\
    standardize_X (Tensor Y) None None = Ok (Tensor Z) /\
    transform_plot2D_Y Z (mean0 (Tensor Y)) (std0 (Tensor Y)) (Z.of_nat 2)
      = Ok G /\
    forall i j, (i < 2)%nat -> (j < 2)%nat ->
      entry G i j = entry Y (i * 2 + j) 0 /\
      nth_error rows (i * 2 + j) = Some [entry X1 i j; entry X2 i j].
Proof.
  apply (standardized_responses_on_mesh 2 (mkMatrix 1 [[1]; [3]; [1]; [3]])).
  - lia.
  - repeat constructor.
  - reflexivity.
  - reflexivity.
  - unfold std0, torch_std0, column. cbn [n_cols rows_of seq map nth].
    rewrite torch_std_1_3_1_3. repeat constructor.
    assert (0 < sqrt (4 / 3)) by (apply sqrt_lt_R0; lra). lra.
Defined.

(** ** Supplied statistics *)

Lemma broadcast_rows_mismatch (op : R -> R -> R) (M : Matrix) (v : list R) :
  length v <> n_cols M -> length v <> 1%nat -> n_cols M <> 1%nat ->
  broadcast_rows op M v = Raise ValueError.
Proof.
  intros H1 H2 H3. unfold broadcast_rows.
  destruct (Nat.eqb_spec (length v) (n_cols M)); [contradiction|].
  destruct (Nat.eqb_spec (length v) 1); [contradiction|].
  destruct (Nat.eqb_spec (n_cols M) 1); [contradiction | reflexivity].
Qed.

Lemma zip_rows_entry (op : R -> R -> R) (M : Matrix) (v : list R) (k i : nat) :
  wf_matrix M -> length v = n_cols M ->
  (k < n_rows M)%nat -> (i < n_cols M)%nat ->
  entry (mkMatrix (n_cols M) (map (fun r => zip_with op r v) (rows_of M))) k i
    = op (entry M k i) (nth i v 0).
Proof.
  intros Hw Hv Hk Hi. unfold entry; cbn [rows_of].
  assert (Hrow : length (nth k (rows_of M) []) = n_cols M).
  { unfold wf_matrix in Hw. rewrite Forall_forall in Hw. apply Hw, nth_In, Hk. }
  rewrite (nth_indep _ [] ((fun r => zip_with op r v) []))
    by (now rewrite length_map).
  rewrite (map_nth (fun r => zip_with op r v) (rows_of M) [] k).
  apply zip_with_nth; lia.
Qed.

Lemma zip_rows_wf (op : R -> R -> R) (M : Matrix) (v : list R) :
  wf_matrix M -> length v = n_cols M ->
  wf_matrix (mkMatrix (n_cols M) (map (fun r => zip_with op r v) (rows_of M))).
Proof.
  intros Hw Hv. unfold wf_matrix in *; cbn [n_cols rows_of].
  apply Forall_forall. intros r Hr.
  apply in_map_iff in Hr as (r0 & <- & Hr0).
  rewrite Forall_forall in Hw. rewrite zip_with_length; rewrite (Hw r0 Hr0); auto.
Qed.

(** With a mean and a standard deviation supplied, one entry per column,
    [standardize_X] returns an array or tensor, as its input is, of the
    same shape whose entry in column [i] is the data's entry minus the
    [i]-th mean over the [i]-th standard deviation; a mean whose length
    fits neither the columns nor the stretching of one entry or one column
    is refused, whatever the standard deviation, with a value error by
    numpy and with a runtime error by torch. *)
Theorem standardize_X_supplied (X : MatrixLike2d) (m : list R) :
  wf_matrix (matrix_of X) ->
  (forall s,
     length m = n_cols (matrix_of X) -> length s = n_cols (matrix_of X) ->
     exists Z,
       standardize_X X (Some m) (Some s) = Ok (like X Z) /\
       shape (Arr2 Z) = shape (Arr2 (matrix_of X)) /\ wf_matrix Z /\
       forall k i,
         (k < n_rows (matrix_of X))%nat -> (i < n_cols (matrix_of X))%nat ->
         entry Z k i = (entry (matrix_of X) k i - nth i m 0) / nth i s 0) /\
  (forall s,
     length m <> n_cols (matrix_of X) -> length m <> 1%nat ->
     n_cols (matrix_of X) <> 1%nat ->
     standardize_X X (Some m) s =
       Raise match X with
             | NdArray _ => ValueError
             | Tensor _ => RuntimeError
             end).
Proof.
  intros Hw. split.
  - intros s Hm Hs. rewrite standardize_X_same_length by assumption.
    set (x := matrix_of X) in *.
    eexists. split; [reflexivity|].
    pose proof (zip_rows_wf Rminus x m Hw Hm) as WD.
    set (D := mkMatrix (n_cols x)
                (map (fun r => zip_with Rminus r m) (rows_of x))) in *.
    assert (HsD : length s = n_cols D) by exact Hs.
    assert (E : mkMatrix (n_cols x)
                  (map (fun r => zip_with Rdiv (zip_with Rminus r m) s)
                     (rows_of x))
                = mkMatrix (n_cols D)
                    (map (fun r => zip_with Rdiv r s) (rows_of D))).
    { unfold D; cbn [n_cols rows_of]. now rewrite map_map. }
    rewrite E. split; [|split].
    + unfold shape, n_rows; cbn [n_cols rows_of]. unfold D; cbn [rows_of].
      now rewrite !length_map.
    + exact (zip_rows_wf Rdiv D s WD HsD).
    + intros k i Hk Hi.
      assert (HkD : (k < n_rows D)%nat)
        by (unfold D, n_rows; cbn [rows_of]; rewrite length_map; exact Hk).
      etransitivity; [exact (zip_rows_entry Rdiv D s k i WD HsD HkD Hi)|].
      unfold D. now rewrite (zip_rows_entry Rminus x m k i Hw Hm).
  - intros s H1 H2 H3. unfold standardize_X.
    destruct X as [x|x]; cbn [broadcast matrix_of] in *.
    + now rewrite broadcast_rows_mismatch.
    + unfold torch_broadcast_rows. now rewrite broadcast_rows_mismatch.
Qed.

Lemma standardize_X_supplied_witness :
  let X := mkMatrix 2 [[1; 2]; [3; 4]] in
  (exists Z,
     standardize_X (NdArray X) (Some [1; 2]) (Some [2; 2])
       = Ok (like (NdArray X) Z) /\
     shape (Arr2 Z) = shape (Arr2 X) /\
     wf_matrix Z /\
     forall k i, (k < 2)%nat -> (i < 2)%nat ->
       entry Z k i = (entry X k i - nth i [1; 2] 0) / nth i [2; 2] 0) /\
  standardize_X (NdArray X) (Some [1; 2; 3]) None = Raise ValueError /\
  standardize_X (Tensor X) (Some [1; 2; 3]) None = Raise RuntimeError.
Proof.
  assert (Hw : wf_matrix (mkMatrix 2 [[1; 2]; [3; 4]])) by (repeat constructor).
  cbv zeta. split; [|split].
  - apply (proj1 (standardize_X_supplied (NdArray (mkMatrix 2 [[1; 2]; [3; 4]]))
                    [1; 2] Hw) [2; 2]); reflexivity.
  - apply (proj2 (standardize_X_supplied (NdArray (mkMatrix 2 [[1; 2]; [3; 4]]))
                    [1; 2; 3] Hw) None); cbn; lia.
  - apply (proj2 (standardize_X_supplied (Tensor (mkMatrix 2 [[1; 2]; [3; 4]]))
                    [1; 2; 3] Hw) None); cbn; lia.
Defined.
